(** * Carmichael table tools: [counter.cpp] and [imprimitive.cpp]

    Both programs read [new_table.txt] line by line.  A line is a list of
    space separated decimal numbers: the first one is the Carmichael number,
    the others are its prime divisors.  [counter.cpp] prints a table of how
    many lines have a given number of entries, one row per power of ten;
    [imprimitive.cpp] copies the lines whose first number is a multiple of
    5717264681 to [divisors.txt].

    The development is a shallow embedding: the C++ streams become strings,
    [std::vector] becomes [list], [mpz_class] becomes [Z], the fixed width
    counters become [Z] reduced modulo their width, and the ways in which
    [main] can end (return, uncaught exception, undefined behaviour) become
    the constructors of [result]. *)

From Stdlib Require Import ZArith String Ascii List Lia Bool.
From stdpp Require Import base tactics option list numbers sorting relations.
From Stdlib Require Decimal DecimalString DecimalN.

Import ListNotations.
Local Open Scope string_scope.
Local Open Scope list_scope.
Local Open Scope Z_scope.

(** ** Streams and [std::getline] *)

Section Getline.

Variable delim : ascii.

(** The characters [std::getline] stores into its string argument, and what
    is left in the stream: extraction stops after the first delimiter
    (which is consumed and not stored) or at the end of the stream. *)
Fixpoint extract (s : string) : string * string :=
  match s with
  | EmptyString => (EmptyString, EmptyString)
  | String c s' =>
      if Ascii.eqb c delim then (EmptyString, s')
      else let (tok, rest) := extract s' in (String c tok, rest)
  end.

(** One call [getline(stream, tok, delim)] on a stream holding [s].  When no
    character at all can be extracted the call sets [failbit] and the
    stream converts to [false]: that is [None]. *)
Definition getline (s : string) : option (string * string) :=
  match s with
  | EmptyString => None
  | _ => Some (extract s)
  end.

(** [while (getline(stream, tok, delim)) { ... tok ... }]: the successive
    values of [tok].  Every successful call consumes a character, so
    [String.length s] calls are enough ([getline_loop_fuel]). *)
Fixpoint getline_loop (fuel : nat) (s : string) : list string :=
  match fuel with
  | O => []
  | S fuel' =>
      match getline s with
      | None => []
      | Some (tok, rest) => tok :: getline_loop fuel' rest
      end
  end.

Definition getline_all (s : string) : list string :=
  getline_loop (String.length s) s.

(** The delimiter does not occur in [s]. *)
Fixpoint free_of (s : string) : bool :=
  match s with
  | EmptyString => true
  | String c s' => negb (Ascii.eqb c delim) && free_of s'
  end.

End Getline.

(** ** [mpz_class(std::string, 10)]

    The constructor hands [s.c_str()] to GMP's [mpz_set_str] and throws
    [std::invalid_argument] when that returns [-1].  [mpz_set_str] (GMP
    manual, "Assigning Integers"; [mpz/set_str.c]) skips leading white
    space, accepts one [-], wants a digit next, and then accepts digits and
    white space only up to the terminating NUL. *)

Definition isspace (c : ascii) : bool :=
  let n := nat_of_ascii c in
  Nat.eqb n 32 || (Nat.leb 9 n && Nat.leb n 13).

Definition digit_value (c : ascii) : option Z :=
  let n := nat_of_ascii c in
  if Nat.leb 48 n && Nat.leb n 57 then Some (Z.of_nat (n - 48)) else None.

(** [std::string::c_str] seen as a C string: it ends at the first NUL. *)
Fixpoint c_str (s : string) : string :=
  match s with
  | EmptyString => EmptyString
  | String c s' => if Ascii.eqb c Ascii.zero then EmptyString else String c (c_str s')
  end.

Fixpoint skip_space (s : string) : string :=
  match s with
  | EmptyString => EmptyString
  | String c s' => if isspace c then skip_space s' else s
  end.

Fixpoint digits (acc : Z) (s : string) : option Z :=
  match s with
  | EmptyString => Some acc
  | String c s' =>
      if isspace c then digits acc s'
      else match digit_value c with
           | Some d => digits (acc * 10 + d) s'
           | None => None
           end
  end.

Definition mpz_set_str (str : string) : option Z :=
  let s := skip_space str in
  let '(negative, s) :=
    match s with
    | String "-"%char s' => (true, s')
    | _ => (false, s)
    end in
  match s with
  | EmptyString => None
  | String c _ =>
      match digit_value c with
      | None => None
      | Some _ =>
          match digits 0 s with
          | Some n => Some (if negative then - n else n)
          | None => None
          end
      end
  end.

(** [None] is the [std::invalid_argument] exception. *)
Definition mpz_class (s : string) : option Z := mpz_set_str (c_str s).

(** ** The token loop shared by the two programs

<<
    std::stringstream ss(line);
    while (getline(ss, temp_string, ' '))
    {
        v.push_back(temp_string);
        v_nums.push_back( mpz_class(temp_string, 10) );
    }
>>
    [v] and [v_nums] are empty when the loop starts: they are created empty
    and cleared at the end of every iteration of the line loop.  [v] is
    never read afterwards, so only [v_nums] is returned.  Every round
    consumes a character of the line, so the length of the line is enough
    fuel ([token_loop_spec]). *)

Inductive result (A : Type) : Type :=
| Ok (a : A)
| Throw          (* an exception left the statement *)
| Undefined      (* the statement has undefined behaviour *)
| Diverge.       (* the statement does not terminate *)
Arguments Ok {A} a.
Arguments Throw {A}.
Arguments Undefined {A}.
Arguments Diverge {A}.

Fixpoint token_loop (fuel : nat) (ss : string) (v_nums : list Z) : result (list Z) :=
  match getline " " ss with
  | None => Ok v_nums
  | Some (temp_string, ss') =>
      match fuel with
      | O => Diverge
      | S fuel' =>
          match mpz_class temp_string with
          | None => Throw
          | Some n => token_loop fuel' ss' (v_nums ++ [n])
          end
      end
  end.

Definition read_line (line : string) : result (list Z) :=
  token_loop (String.length line) line [].

(** The lines of a text file, as the outer loop
    [while (std::getline(file, line))] sees them. *)
Definition LF : ascii := "010"%char.

Definition file_lines (contents : string) : list string := getline_all LF contents.

(** A text file with the given lines, each one ended by a line feed. *)
Fixpoint unlines (lines : list string) : string :=
  match lines with
  | [] => EmptyString
  | line :: rest => line ++ String LF (unlines rest)
  end.

Definition wrap32 (n : Z) : Z := n mod 2 ^ 32.   (* uint32_t arithmetic *)
Definition wrap64 (n : Z) : Z := n mod 2 ^ 64.   (* uint64_t arithmetic *)

(** What a run of [main] leaves behind: the lines written to the output
    (each one is flushed by [std::endl], so they survive an abnormal end),
    the lines written to [std::cerr], and how the run ended.  After
    [Undefined] the output fields carry no information. *)
Record run (A : Type) : Type := Run {
  output : list A;
  errors : list string;
  status : result Z;
}.
Arguments Run {A} output errors status.
Arguments output {A} r.
Arguments errors {A} r.
Arguments status {A} r.

(** ** [counter.cpp] *)

Module counter.

(** The variables of [main] that live across lines. *)
Record state : Type := State {
  bound : Z;                 (* mpz_class bound = 1000 *)
  counter : Z;               (* uint64_t counter = 0 *)
  i : Z;                     (* uint32_t i = 2 *)
  prime_count : list Z;      (* uint32_t prime_count[20] = {0, ...} *)
}.

Definition init : state :=
  {| bound := 1000; counter := 0; i := 2; prime_count := replicate 20 0 |}.

(** One printed row, as the twelve numbers it shows:
<<
    for( uint16_t j = 4; j < 15; j++) std::cout << " $" << prime_count[ j ] << "$ & " ;
    std::cout << " $" << prime_count[ 15 ] << "$ \\\\  \\hline " << std::endl;
>> *)
Definition row : Type := list Z.

Definition print_row (prime_count : list Z) : row :=
  map (fun j : nat => prime_count !!! j) (seq 4 11) ++ [prime_count !!! 15%nat].

(** [i++; bound *= 10;] *)
Definition scale (st : state) : state :=
  {| bound := bound st * 10;
     counter := counter st;
     i := wrap32 (i st + 1);
     prime_count := prime_count st |}.

(** The threshold loop for a line whose first number is [p]:
<<
    while( bound < v_nums[0] )
    {
        i++;
        bound *= 10;
        ... print the row ...
    }
>>
    [None] when the fuel runs out before the loop ends. *)
Fixpoint threshold_loop (fuel : nat) (p : Z) (st : state) : option (list row * state) :=
  if bound st <? p then
    match fuel with
    | O => None
    | S fuel' =>
        let st' := scale st in
        match threshold_loop fuel' p st' with
        | Some (rows, st'') => Some (print_row (prime_count st') :: rows, st'')
        | None => None
        end
    end
  else Some ([], st).

(** Fuel that is enough whenever [bound] is positive
    ([threshold_loop_total]): every round multiplies [bound] by ten. *)
Definition threshold_fuel (p : Z) : nat := Z.to_nat (Z.log2_up p).

(** [counter++; prime_count[ v_nums.size() ]++;]  The array has 20 slots;
    an index of 20 or more is a write outside the array. *)
Definition count_line (size : nat) (st : state) : result state :=
  if (size <? 20)%nat then
    Ok {| bound := bound st;
          counter := wrap64 (counter st + 1);
          i := i st;
          prime_count := alter (fun c => wrap32 (c + 1)) size (prime_count st) |}
  else Undefined.

(** The body of the line loop, lines 35 to 60: the rows it prints and the
    next state. *)
Definition process_line (line : string) (st : state) : result (list row * state) :=
  match read_line line with
  | Ok v_nums =>
      match v_nums with
      | [] => Undefined                      (* v_nums[0] of an empty vector *)
      | p :: _ =>
          match threshold_loop (threshold_fuel p) p st with
          | None => Diverge
          | Some (rows, st') =>
              match count_line (length v_nums) st' with
              | Ok st'' => Ok (rows, st'')
              | Throw => Throw
              | Undefined => Undefined
              | Diverge => Diverge
              end
          end
      end
  | Throw => Throw
  | Undefined => Undefined
  | Diverge => Diverge
  end.

(** [while( std::getline(file, line) ) { ... }]: the rows printed and the
    state in which the loop is left, or why it was not left normally. *)
Fixpoint line_loop (lines : list string) (st : state) : list row * result state :=
  match lines with
  | [] => ([], Ok st)
  | line :: rest =>
      match process_line line st with
      | Ok (rows, st') =>
          let '(rows', r) := line_loop rest st' in (rows ++ rows', r)
      | Throw => ([], Throw)
      | Undefined => ([], Undefined)
      | Diverge => ([], Diverge)
      end
  end.

(** [main]; [file] is the contents of [new_table.txt], [None] when it
    cannot be opened. *)
Definition main (file : option string) : run row :=
  match file with
  | Some contents =>
      match line_loop (file_lines contents) init with
      | (rows, Ok st) => Run (rows ++ [print_row (prime_count st)]) [] (Ok 0)
      | (rows, Throw) => Run rows [] Throw
      | (rows, Undefined) => Run rows [] Undefined
      | (rows, Diverge) => Run rows [] Diverge
      end
  | None => Run [] ["Unable to open file!"] (Ok 0)
  end.

End counter.

(** ** [imprimitive.cpp] *)

Module imprimitive.

(** [mpz_class divisor = 5717264681;] *)
Definition divisor : Z := 5717264681.

(** The body of the line loop, lines 37 to 88: the lines it appends to
    [divisors.txt].  [%] on [mpz_class] truncates towards zero. *)
Definition process_line (line : string) : result (list string) :=
  match read_line line with
  | Ok v_nums =>
      match v_nums with
      | [] => Undefined                      (* v_nums[0] of an empty vector *)
      | p :: _ => if 0 =? Z.rem p divisor then Ok [line] else Ok []
      end
  | Throw => Throw
  | Undefined => Undefined
  | Diverge => Diverge
  end.

Fixpoint line_loop (lines : list string) : list string * result unit :=
  match lines with
  | [] => ([], Ok tt)
  | line :: rest =>
      match process_line line with
      | Ok out => let '(out', r) := line_loop rest in (out ++ out', r)
      | Throw => ([], Throw)
      | Undefined => ([], Undefined)
      | Diverge => ([], Diverge)
      end
  end.

(** [main]; the output is the list of lines of [divisors.txt]. *)
Definition main (file : option string) : run string :=
  match file with
  | Some contents =>
      match line_loop (file_lines contents) with
      | (out, Ok _) => Run out [] (Ok 0)
      | (out, Throw) => Run out [] Throw
      | (out, Undefined) => Run out [] Undefined
      | (out, Diverge) => Run out [] Diverge
      end
  | None => Run [] ["Unable to open file!"] (Ok 0)
  end.

End imprimitive.

(** ** Vocabulary of the statements *)

(** The tokens of a line, the number the first one denotes, and how many
    lines of a file have [k] tokens. *)
Definition tokens (line : string) : list string := getline_all " " line.

Definition principal (line : string) : option Z :=
  match tokens line with
  | tok :: _ => mpz_class tok
  | [] => None
  end.

Fixpoint tally (k : nat) (lines : list string) : Z :=
  match lines with
  | [] => 0
  | line :: rest => (if Nat.eqb (length (tokens line)) k then 1 else 0) + tally k rest
  end.

(** A line that is a record: at least one token, and every token is
    accepted by [mpz_class]. *)
Definition is_record (line : string) : bool :=
  match read_line line with
  | Ok (_ :: _) => true
  | _ => false
  end.

(** A record that [counter.cpp] can count: at most 19 tokens. *)
Definition countable (line : string) : bool :=
  is_record line && (length (tokens line) <? 20)%nat.

(** The states [counter.cpp] can be in: every variable is within its type,
    the array has its 20 slots, and [bound] is positive. *)
Definition valid (st : counter.state) : Prop :=
  0 < counter.bound st /\
  0 <= counter.i st < 2 ^ 32 /\
  0 <= counter.counter st < 2 ^ 64 /\
  length (counter.prime_count st) = 20%nat /\
  Forall (fun c => 0 <= c < 2 ^ 32) (counter.prime_count st).

(** The state after a line of [size] tokens whose threshold loop ran [k]
    rounds. *)
Definition after_line (k size : nat) (st : counter.state) : counter.state :=
  {| counter.bound := counter.bound st * 10 ^ Z.of_nat k;
     counter.counter := wrap64 (counter.counter st + 1);
     counter.i := wrap32 (counter.i st + Z.of_nat k);
     counter.prime_count := alter (fun c => wrap32 (c + 1)) size (counter.prime_count st) |}.

(** The test of [imprimitive.cpp], on the number the first token denotes. *)
Definition selected (line : string) : bool :=
  match principal line with
  | Some p => p mod imprimitive.divisor =? 0
  | None => false
  end.

(** The row that shows how many of [lines] have 4, 5, ..., 15 tokens, as
    32 bit numbers. *)
Definition snapshot (lines : list string) : counter.row :=
  map (fun j : nat => wrap32 (tally j lines)) (seq 4 12).

(** Two rows compared column by column. *)
Definition rows_le (r1 r2 : counter.row) : Prop := Forall2 Z.le r1 r2.

Definition sumZ (l : list Z) : Z := foldr Z.add 0 l.

(** The points of a run of [counter.cpp] at which the variables change:
    one round of the threshold loop, taken because [bound] is below the
    principal number [p] of the line, and the counting of a line. *)
Inductive step : counter.state -> counter.state -> Prop :=
| step_scale (st : counter.state) (p : Z) :
    counter.bound st < p -> step st (counter.scale st)
| step_count (st st' : counter.state) (size : nat) :
    counter.count_line size st = Ok st' -> step st st'.

Definition reachable (st : counter.state) : Prop := rtc step counter.init st.

(** The decimal numeral of [10 ^ n], less its leading [1]. *)
Fixpoint zeros (n : nat) : string :=
  match n with
  | O => EmptyString
  | S n' => String "0"%char (zeros n')
  end.

(** ** The files and the text the programs write *)

(** [output_file << line << std::endl;]: the contents of [divisors.txt]
    after a run.  The file is created, empty, even when [new_table.txt]
    cannot be opened. *)
Definition divisors_txt (r : run string) : string := unlines (output r).

(** [std::cout << prime_count[ j ]] for a [uint32_t]: the decimal numeral,
    without sign, leading zeros or separators. *)
Definition decimal (n : Z) : string :=
  DecimalString.NilZero.string_of_uint (N.to_uint (Z.to_N n)).

(** The text of one row of the table, as lines 48 to 52 and 63 to 67 print
    it, without the line feed of [std::endl]. *)
Definition print_row_text (prime_count : list Z) : string :=
  (String.concat EmptyString
     (map (fun j : nat => " $" ++ decimal (prime_count !!! j) ++ "$ & ") (seq 4 11))
   ++ " $" ++ decimal (prime_count !!! 15%nat) ++ "$ \\  \hline ")%string.

(** The same text, from the twelve numbers of the row. *)
Fixpoint format_row (r : counter.row) : string :=
  match r with
  | [] => EmptyString
  | [c] => (" $" ++ decimal c ++ "$ \\  \hline ")%string
  | c :: r' => (" $" ++ decimal c ++ "$ & " ++ format_row r')%string
  end.

(** What [counter.cpp] has written to [std::cout] after a run. *)
Definition stdout_text (r : run counter.row) : string :=
  unlines (map format_row (output r)).

(** ** Vocabulary of the further properties *)

(** Tokens written on one line, with single spaces between them. *)
Fixpoint join (toks : list string) : string :=
  match toks with
  | [] => EmptyString
  | [tok] => tok
  | tok :: rest => (tok ++ String " " (join rest))%string
  end.

(** The lines before the first one that fails the test [ok], and that
    first one. *)
Fixpoint lines_before (ok : string -> bool) (lines : list string) : list string :=
  match lines with
  | [] => []
  | line :: rest => if ok line then line :: lines_before ok rest else []
  end.

Fixpoint first_not (ok : string -> bool) (lines : list string) : option string :=
  match lines with
  | [] => None
  | line :: rest => if ok line then first_not ok rest else Some line
  end.

(** How a program ends on the first line it cannot process: the empty line
    and (for [counter.cpp]) the line with 20 tokens or more are undefined
    behaviour, a line with a token that is no number throws. *)
Definition ending (bad : option string) : result Z :=
  match bad with
  | None => Ok 0
  | Some line =>
      match read_line line with
      | Throw => Throw
      | _ => Undefined
      end
  end.

(** The principal numbers of the lines do not go down, starting at [lo]. *)
Fixpoint ascending_from (lo : Z) (lines : list string) : bool :=
  match lines with
  | [] => true
  | line :: rest =>
      match principal line with
      | Some p => (lo <=? p) && ascending_from p rest
      | None => false
      end
  end.

Definition ascending (lines : list string) : bool :=
  match lines with
  | [] => true
  | line :: _ =>
      match principal line with
      | Some p => ascending_from p lines
      | None => false
      end
  end.

(** The lines whose principal number is at most [b]. *)
Definition upto (b : Z) (lines : list string) : list string :=
  List.filter
    (fun line => match principal line with Some p => p <=? b | None => false end)
    lines.

(** The rows that the threshold loops printed in a run: all the rows but
    the final one, which is there when the run returned. *)
Definition threshold_rows (r : run counter.row) : list counter.row :=
  match status r with
  | Ok _ => removelast (output r)
  | _ => output r
  end.

(** * Properties *)

Example getline_all_ex1 : getline_all " " "561 3 11 17" = ["561"; "3"; "11"; "17"].
Proof. reflexivity. Qed.
Example getline_all_ex2 : getline_all " " " 561  3 " = [""; "561"; ""; "3"].
Proof. reflexivity. Qed.
Example getline_all_ex3 : getline_all " " "" = [].
Proof. reflexivity. Qed.
Example read_line_ex1 : read_line "561 3 11 17" = Ok [561; 3; 11; 17]%Z.
Proof. reflexivity. Qed.
Example read_line_ex2 : read_line "561 3 x 17" = Throw.
Proof. reflexivity. Qed.
Example read_line_ex3 : read_line "" = Ok [].
Proof. reflexivity. Qed.
Example read_line_ex4 : read_line " 561" = Throw.
Proof. reflexivity. Qed.

(** ** [std::getline] *)

Section GetlineFacts.

Variable delim : ascii.

Lemma extract_rest_length (s : string) :
  (String.length (snd (extract delim s)) <= String.length s)%nat.
Proof.
  induction s as [|c s IH]; simpl; [lia|].
  destruct (Ascii.eqb c delim); simpl; [lia|].
  destruct (extract delim s) as [tok rest]; simpl in *; lia.
Qed.

Lemma extract_cons_length (c : ascii) (s tok rest : string) :
  extract delim (String c s) = (tok, rest) ->
  (String.length rest <= String.length s)%nat.
Proof.
  cbn [extract]. pose proof (extract_rest_length s) as H.
  destruct (Ascii.eqb c delim).
  - intros [= _ <-]. lia.
  - destruct (extract delim s) as [t r]. intros [= _ <-]. exact H.
Qed.

(** Any two amounts of fuel above the length of the stream agree. *)
Lemma getline_loop_enough (fuel1 fuel2 : nat) (s : string) :
  (String.length s <= fuel1)%nat -> (String.length s <= fuel2)%nat ->
  getline_loop delim fuel1 s = getline_loop delim fuel2 s.
Proof.
  revert fuel2 s. induction fuel1 as [|fuel1 IH]; intros fuel2 s H1 H2.
  - destruct s; [|simpl in H1; lia]. destruct fuel2; reflexivity.
  - destruct s as [|c s]; [destruct fuel2; reflexivity|].
    destruct fuel2 as [|fuel2]; [simpl in H2; lia|].
    cbn [getline_loop getline String.length] in *.
    destruct (extract delim (String c s)) as [tok rest] eqn:E.
    apply extract_cons_length in E.
    f_equal. apply IH; lia.
Qed.

Lemma getline_loop_fuel (fuel : nat) (s : string) :
  (String.length s <= fuel)%nat ->
  getline_loop delim fuel s = getline_all delim s.
Proof. intros H. apply getline_loop_enough; [exact H|lia]. Qed.

Lemma getline_all_nil : getline_all delim EmptyString = [].
Proof. reflexivity. Qed.

(** The loop, read off the stream character by character. *)
Lemma getline_all_cons (c : ascii) (s : string) :
  getline_all delim (String c s) =
    if Ascii.eqb c delim then EmptyString :: getline_all delim s
    else match getline_all delim s with
         | [] => [String c EmptyString]
         | tok :: toks => String c tok :: toks
         end.
Proof.
  unfold getline_all at 1. cbn [String.length getline_loop getline extract].
  destruct (Ascii.eqb c delim) eqn:Ec.
  - reflexivity.
  - destruct s as [|c' s]; [reflexivity|].
    unfold getline_all.
    change (String.length (String c' s)) with (S (String.length s)).
    change (getline_loop delim (S (String.length s)) (String c' s))
      with (let (tok, rest) := extract delim (String c' s) in
            tok :: getline_loop delim (String.length s) rest).
    destruct (extract delim (String c' s)) as [tok rest] eqn:E.
    apply extract_cons_length in E.
    f_equal. apply getline_loop_enough; lia.
Qed.

Lemma getline_all_empty_iff (s : string) :
  getline_all delim s = [] <-> s = EmptyString.
Proof.
  split; [|intros ->; reflexivity].
  destruct s as [|c s]; [reflexivity|].
  rewrite getline_all_cons.
  destruct (Ascii.eqb c delim); [discriminate|].
  destruct (getline_all delim s); discriminate.
Qed.

Lemma getline_all_free (c : ascii) (s : string) :
  free_of delim (String c s) = true -> getline_all delim (String c s) = [String c s].
Proof.
  revert c. induction s as [|c' s IH]; intros c H.
  - rewrite getline_all_cons. simpl in H.
    destruct (Ascii.eqb c delim); [discriminate|reflexivity].
  - rewrite getline_all_cons. cbn [free_of] in H.
    apply andb_prop in H as [Hc H].
    destruct (Ascii.eqb c delim); [discriminate|].
    rewrite (IH c' H). reflexivity.
Qed.

Lemma getline_all_tokens_free (s : string) :
  Forall (fun tok => free_of delim tok = true) (getline_all delim s).
Proof.
  induction s as [|c s IH]; [constructor|].
  rewrite getline_all_cons.
  destruct (Ascii.eqb c delim) eqn:Ec.
  - constructor; [reflexivity|exact IH].
  - destruct (getline_all delim s) as [|tok toks].
    + repeat constructor. simpl. rewrite Ec. reflexivity.
    + inversion IH; subst. constructor; [|assumption].
      simpl. rewrite Ec. assumption.
Qed.

(** A stream made of a delimiter-free piece, a delimiter and more. *)
Lemma getline_all_app (tok rest : string) :
  free_of delim tok = true ->
  getline_all delim (tok ++ String delim rest) = tok :: getline_all delim rest.
Proof.
  induction tok as [|c tok IH]; intros H.
  - cbn [append]. rewrite getline_all_cons, Ascii.eqb_refl. reflexivity.
  - cbn [append]. rewrite getline_all_cons. cbn [free_of] in H.
    apply andb_prop in H as [Hc H].
    destruct (Ascii.eqb c delim); [discriminate|].
    rewrite (IH H). reflexivity.
Qed.

End GetlineFacts.

(** A text file gives back the lines it was written from. *)
Lemma file_lines_unlines (lines : list string) :
  Forall (fun line => free_of LF line = true) lines ->
  file_lines (unlines lines) = lines.
Proof.
  induction 1 as [|line lines Hline _ IH]; [reflexivity|].
  cbn [unlines]. unfold file_lines in *.
  rewrite getline_all_app by assumption. now rewrite IH.
Qed.

Lemma file_lines_free (contents : string) :
  Forall (fun line => free_of LF line = true) (file_lines contents).
Proof. apply getline_all_tokens_free. Qed.

(** ** The token loop *)

Lemma getline_step (delim : ascii) (s tok rest : string) :
  getline delim s = Some (tok, rest) ->
  getline_all delim s = tok :: getline_all delim rest /\
  (String.length rest < String.length s)%nat.
Proof.
  destruct s as [|c s]; [discriminate|].
  intros [= E]. change (extract delim (String c s) = (tok, rest)) in E.
  pose proof (extract_cons_length _ _ _ _ _ E) as Hlen.
  split; [|simpl; lia].
  unfold getline_all at 1.
  cbn [String.length getline_loop getline]. rewrite E.
  f_equal. apply getline_loop_fuel. exact Hlen.
Qed.

(** The token loop converts the tokens from left to right and stops at the
    first one that [mpz_class] rejects. *)
Lemma token_loop_spec (fuel : nat) (ss : string) (v_nums : list Z) :
  (String.length ss <= fuel)%nat ->
  token_loop fuel ss v_nums =
    match mapM mpz_class (tokens ss) with
    | Some ns => Ok (v_nums ++ ns)
    | None => Throw
    end.
Proof.
  unfold tokens.
  revert ss v_nums. induction fuel as [|fuel IH]; intros ss v_nums Hfuel.
  - destruct ss; [|simpl in Hfuel; lia]. simpl. now rewrite app_nil_r.
  - cbn [token_loop].
    destruct (getline " " ss) as [[tok rest]|] eqn:E.
    + apply getline_step in E as [-> Hlen].
      cbn [mapM]. destruct (mpz_class tok) as [n|]; [|reflexivity].
      rewrite IH by lia. simpl.
      destruct (mapM mpz_class (getline_all " " rest)) as [ns|]; [|reflexivity].
      simpl. now rewrite <- app_assoc.
    + destruct ss; [|discriminate]. simpl. now rewrite app_nil_r.
Qed.

Lemma read_line_spec (line : string) :
  read_line line =
    match mapM mpz_class (tokens line) with
    | Some ns => Ok ns
    | None => Throw
    end.
Proof. unfold read_line. now rewrite token_loop_spec by lia. Qed.

Lemma read_line_Ok (line : string) (v_nums : list Z) :
  read_line line = Ok v_nums <->
  Forall2 (fun tok n => mpz_class tok = Some n) (tokens line) v_nums.
Proof.
  rewrite read_line_spec, <- mapM_Some.
  destruct (mapM mpz_class (tokens line)); split; congruence.
Qed.

Lemma read_line_length (line : string) (v_nums : list Z) :
  read_line line = Ok v_nums -> length v_nums = length (tokens line).
Proof. rewrite read_line_Ok. intros H. symmetry. eapply Forall2_length, H. Qed.

Lemma read_line_Throw (line : string) :
  read_line line = Throw <-> Exists (fun tok => mpz_class tok = None) (tokens line).
Proof.
  rewrite read_line_spec, <- mapM_None.
  destruct (mapM mpz_class (tokens line)); split; congruence.
Qed.

(** The token loop itself neither goes wrong nor runs forever. *)
Lemma read_line_defined (line : string) :
  read_line line <> Undefined /\ read_line line <> Diverge.
Proof.
  rewrite read_line_spec.
  destruct (mapM mpz_class (tokens line)); split; discriminate.
Qed.

Lemma read_line_nil (line : string) :
  read_line line = Ok [] <-> line = EmptyString.
Proof.
  rewrite read_line_Ok. unfold tokens. split.
  - intros H. apply Forall2_nil_inv_r in H. now apply getline_all_empty_iff in H.
  - intros ->. constructor.
Qed.

Lemma is_record_spec (line : string) :
  is_record line = true <-> exists p divs, read_line line = Ok (p :: divs).
Proof.
  unfold is_record. split.
  - destruct (read_line line) as [[|p divs]| | |]; try discriminate. eauto.
  - intros (p & divs & ->). reflexivity.
Qed.

Lemma is_record_principal (line : string) (p : Z) (divs : list Z) :
  read_line line = Ok (p :: divs) -> principal line = Some p.
Proof.
  rewrite read_line_Ok. unfold principal.
  inversion 1; subst. assumption.
Qed.

(** ** The threshold loop of [counter.cpp] *)

Lemma wrap32_succ (n k : Z) : wrap32 (wrap32 (n + k) + 1) = wrap32 (n + (k + 1)).
Proof. unfold wrap32. rewrite Z.add_mod_idemp_l by lia. f_equal. lia. Qed.

Lemma wrap32_range (n : Z) : 0 <= wrap32 n < 2 ^ 32.
Proof. unfold wrap32. apply Z.mod_pos_bound. lia. Qed.

Lemma wrap32_small (n : Z) : 0 <= n < 2 ^ 32 -> wrap32 n = n.
Proof. unfold wrap32. apply Z.mod_small. Qed.

(** [k] rounds of [i++; bound *= 10;]. *)
Lemma scale_iter (k : nat) (st : counter.state) :
  Nat.iter k counter.scale st =
    {| counter.bound := counter.bound st * 10 ^ Z.of_nat k;
       counter.counter := counter.counter st;
       counter.i := if k is O then counter.i st else wrap32 (counter.i st + Z.of_nat k);
       counter.prime_count := counter.prime_count st |}.
Proof.
  induction k as [|k IH].
  - destruct st; simpl. f_equal. lia.
  - rewrite Nat.iter_succ, IH. unfold counter.scale. cbn [counter.bound counter.counter counter.i counter.prime_count].
    f_equal.
    + rewrite Nat2Z.inj_succ, Z.pow_succ_r by lia. lia.
    + destruct k; [f_equal; lia|]. rewrite wrap32_succ. f_equal. lia.
Qed.

(** What the loop does when it ends: it has run some number [k] of
    rounds, printed the same row [k] times, and [k] is the first number of
    rounds after which [bound] is no longer below [p]. *)
Lemma threshold_loop_spec (fuel : nat) (p : Z) (st st' : counter.state) (rows : list counter.row) :
  counter.threshold_loop fuel p st = Some (rows, st') ->
  exists k : nat,
    rows = replicate k (counter.print_row (counter.prime_count st)) /\
    st' = Nat.iter k counter.scale st /\
    (forall j : nat, (j < k)%nat -> counter.bound st * 10 ^ Z.of_nat j < p) /\
    p <= counter.bound st * 10 ^ Z.of_nat k.
Proof.
  revert st rows. induction fuel as [|fuel IH]; intros st rows.
  - cbn [counter.threshold_loop]. destruct (Z.ltb_spec (counter.bound st) p); [discriminate|].
    intros [= <- <-]. exists O. repeat split; [intros; lia|simpl; lia].
  - cbn [counter.threshold_loop]. destruct (Z.ltb_spec (counter.bound st) p) as [Hlt|Hge].
    + destruct (counter.threshold_loop fuel p (counter.scale st)) as [[rows1 st1]|] eqn:E; [|discriminate].
      intros [= <- <-]. apply IH in E as (k & -> & -> & Hbelow & Hend).
      exists (S k). cbn [counter.scale counter.prime_count counter.bound] in *.
      repeat split.
      * now rewrite Nat.iter_succ_r.
      * intros [|j] Hj; [simpl; lia|].
        specialize (Hbelow j ltac:(lia)).
        rewrite Nat2Z.inj_succ, Z.pow_succ_r by lia. lia.
      * rewrite Nat2Z.inj_succ, Z.pow_succ_r by lia. lia.
    + intros [= <- <-]. exists O. repeat split; [intros; lia|simpl; lia].
Qed.

Lemma threshold_loop_enough (fuel : nat) (p : Z) (st : counter.state) :
  0 < counter.bound st -> p <= counter.bound st * 2 ^ Z.of_nat fuel ->
  is_Some (counter.threshold_loop fuel p st).
Proof.
  revert st. induction fuel as [|fuel IH]; intros st Hpos Hp.
  - simpl in *. destruct (Z.ltb_spec (counter.bound st) p); [lia|eauto].
  - cbn [counter.threshold_loop]. destruct (Z.ltb_spec (counter.bound st) p); [|eauto].
    destruct (IH (counter.scale st)) as [[rows st'] ->]; [simpl; lia| |eauto].
    rewrite Nat2Z.inj_succ, Z.pow_succ_r in Hp by lia.
    cbn [counter.scale counter.bound].
    assert (0 < 2 ^ Z.of_nat fuel) by (apply Z.pow_pos_nonneg; lia). nia.
Qed.

(** The loop ends within [threshold_fuel p] rounds. *)
Lemma threshold_loop_total (p : Z) (st : counter.state) :
  0 < counter.bound st ->
  is_Some (counter.threshold_loop (counter.threshold_fuel p) p st).
Proof.
  intros Hpos. apply threshold_loop_enough; [exact Hpos|].
  unfold counter.threshold_fuel.
  rewrite Z2Nat.id by apply Z.log2_up_nonneg.
  assert (p <= 2 ^ Z.log2_up p).
  { destruct (Z.le_gt_cases p 1) as [Hle|Hgt].
    - rewrite Z.log2_up_eqn0 by exact Hle. simpl. lia.
    - apply Z.log2_up_spec. lia. }
  assert (0 < 2 ^ Z.log2_up p) by (apply Z.pow_pos_nonneg; [lia|apply Z.log2_up_nonneg]).
  nia.
Qed.

(** ** One line of [counter.cpp] *)

Lemma valid_init : valid counter.init.
Proof.
  unfold valid, counter.init; simpl. repeat split; try lia.
  repeat constructor; lia.
Qed.

Lemma valid_after_line (k size : nat) (st : counter.state) :
  valid st -> valid (after_line k size st).
Proof.
  intros (Hb & Hi & Hc & Hlen & Hpc). unfold valid, after_line; simpl.
  repeat split.
  - assert (0 < 10 ^ Z.of_nat k) by (apply Z.pow_pos_nonneg; lia). nia.
  - apply wrap32_range.
  - apply wrap32_range.
  - unfold wrap64. apply Z.mod_pos_bound. lia.
  - unfold wrap64. apply Z.mod_pos_bound. lia.
  - now rewrite length_alter.
  - apply Forall_alter; [exact Hpc|]. intros c _ _. apply wrap32_range.
Qed.

Lemma countable_spec (line : string) :
  countable line = true <->
  exists p divs, read_line line = Ok (p :: divs) /\ (length divs < 19)%nat.
Proof.
  unfold countable. rewrite andb_true_iff, is_record_spec, Nat.ltb_lt. split.
  - intros [(p & divs & E) Hlen]. exists p, divs. split; [exact E|].
    apply read_line_length in E. simpl in E. lia.
  - intros (p & divs & E & Hlen). split; [eauto|].
    apply read_line_length in E. simpl in E. lia.
Qed.

Lemma count_line_iter (k size : nat) (st : counter.state) :
  valid st -> (size < 20)%nat ->
  counter.count_line size (Nat.iter k counter.scale st) = Ok (after_line k size st).
Proof.
  intros (_ & Hi & _) Hsize. unfold counter.count_line.
  destruct (Nat.ltb_spec size 20) as [_|?]; [|lia].
  rewrite scale_iter. cbn [counter.bound counter.counter counter.i counter.prime_count].
  unfold after_line. do 2 f_equal.
  destruct k; [|reflexivity]. simpl. rewrite Z.add_0_r. symmetry. now apply wrap32_small.
Qed.

(** A record with at most 19 tokens, processed in a valid state: the
    threshold loop runs [k] rounds, where [k] is the first number of rounds
    after which [bound] is no longer below the principal number, prints the
    current counts [k] times, and then the line is counted. *)
Lemma process_line_record (line : string) (st : counter.state) (p : Z) (divs : list Z) :
  read_line line = Ok (p :: divs) -> (length divs < 19)%nat -> valid st ->
  exists k : nat,
    counter.process_line line st =
      Ok (replicate k (counter.print_row (counter.prime_count st)),
          after_line k (S (length divs)) st) /\
    (forall j : nat, (j < k)%nat -> counter.bound st * 10 ^ Z.of_nat j < p) /\
    p <= counter.bound st * 10 ^ Z.of_nat k.
Proof.
  intros E Hlen Hst.
  unfold counter.process_line. rewrite E.
  destruct (threshold_loop_total p st (proj1 Hst)) as [[rows st'] Hloop]. rewrite Hloop.
  apply threshold_loop_spec in Hloop as (k & -> & -> & Hbelow & Hend).
  exists k. split; [|split; assumption].
  cbn [length]. rewrite count_line_iter by (assumption || lia). reflexivity.
Qed.

(** ** The line loop of [counter.cpp] *)

Lemma line_loop_app (xs ys : list string) (st : counter.state) :
  counter.line_loop (xs ++ ys) st =
    match counter.line_loop xs st with
    | (rows, Ok st') => let '(rows', r) := counter.line_loop ys st' in (rows ++ rows', r)
    | (rows, r) => (rows, r)
    end.
Proof.
  revert st. induction xs as [|x xs IH]; intros st.
  - simpl. now destruct (counter.line_loop ys st).
  - cbn [app counter.line_loop].
    destruct (counter.process_line x st) as [[rows st']| | |]; try reflexivity.
    rewrite IH.
    destruct (counter.line_loop xs st') as [rows1 [st1| | |]]; try reflexivity.
    destruct (counter.line_loop ys st1) as [rows2 r]. now rewrite app_assoc.
Qed.

Lemma alter_count_lookup (pc : list Z) (size j : nat) :
  length pc = 20%nat -> (size < 20)%nat -> Forall (fun c => 0 <= c < 2 ^ 32) pc ->
  alter (fun c => wrap32 (c + 1)) size pc !!! j =
    wrap32 (pc !!! j + (if Nat.eqb size j then 1 else 0)).
Proof.
  intros Hlen Hsize Hpc.
  destruct (Nat.eqb_spec size j) as [->|Hne].
  - rewrite list_lookup_total_alter_eq by lia. reflexivity.
  - rewrite list_lookup_total_alter_ne by exact Hne.
    rewrite Z.add_0_r. symmetry. apply wrap32_small.
    destruct (Nat.lt_ge_cases j (length pc)) as [Hj|Hj].
    + now apply Forall_lookup_total_1.
    + rewrite list_lookup_total_alt, (lookup_ge_None_2 pc j) by lia. simpl. lia.
Qed.

(** Countable lines are all processed.  Every row printed on the way is a
    scaling of [bound], and the counts at the end are the counts at the
    start plus the tallies of the lines, as 32 bit numbers. *)
Lemma line_loop_countable (lines : list string) (st : counter.state) :
  Forall (fun line => countable line = true) lines -> valid st ->
  exists rows st',
    counter.line_loop lines st = (rows, Ok st') /\
    valid st' /\
    counter.bound st' = counter.bound st * 10 ^ Z.of_nat (length rows) /\
    counter.i st' = wrap32 (counter.i st + Z.of_nat (length rows)) /\
    counter.counter st' = wrap64 (counter.counter st + Z.of_nat (length lines)) /\
    forall j : nat,
      counter.prime_count st' !!! j = wrap32 (counter.prime_count st !!! j + tally j lines).
Proof.
  intros Hall. revert st. induction Hall as [|line lines Hline _ IH]; intros st Hst.
  - exists [], st. simpl. destruct Hst as (Hb & Hi & Hc & Hlen & Hpc).
    repeat split; try assumption; try lia.
    + now rewrite Z.add_0_r, wrap32_small.
    + unfold wrap64. now rewrite Z.add_0_r, Z.mod_small.
    + intros j. rewrite Z.add_0_r. symmetry. apply wrap32_small.
      destruct (Nat.lt_ge_cases j (length (counter.prime_count st))) as [Hj|Hj].
      * now apply Forall_lookup_total_1.
      * rewrite list_lookup_total_alt, (lookup_ge_None_2 _ j) by lia. simpl. lia.
  - apply countable_spec in Hline as (p & divs & E & Hlen).
    destruct (process_line_record line st p divs E Hlen Hst) as (k & Hline & _).
    pose proof (valid_after_line k (S (length divs)) st Hst) as Hst1.
    destruct (IH _ Hst1) as (rows & st' & Hloop & Hst' & Hb' & Hi' & Hc' & Hpc').
    exists (replicate k (counter.print_row (counter.prime_count st)) ++ rows), st'.
    cbn [counter.line_loop]. rewrite Hline, Hloop.
    split; [reflexivity|]. split; [exact Hst'|].
    rewrite length_app, length_replicate, Nat2Z.inj_add.
    cbn [after_line counter.bound counter.i counter.counter counter.prime_count] in *.
    repeat split.
    + rewrite Hb', Z.pow_add_r by lia. lia.
    + rewrite Hi'. unfold wrap32. rewrite Z.add_mod_idemp_l by lia. f_equal. lia.
    + rewrite Hc'. unfold wrap64. rewrite Z.add_mod_idemp_l by lia. f_equal.
      cbn [length]. lia.
    + intros j. rewrite Hpc'. destruct Hst as (_ & _ & _ & Hlen20 & Hrange).
      rewrite alter_count_lookup by (assumption || lia).
      cbn [tally]. apply read_line_length in E. rewrite <- E. cbn [length].
      unfold wrap32. rewrite Z.add_mod_idemp_l by lia. f_equal. lia.
Qed.

(** ** The bucket a line is counted in *)

Lemma wrap32_incr_neq (c : Z) : 0 <= c < 2 ^ 32 -> wrap32 (c + 1) <> c.
Proof.
  intros Hc. unfold wrap32.
  destruct (Z.eq_dec c (2 ^ 32 - 1)) as [->|Hne].
  - now vm_compute.
  - rewrite Z.mod_small by lia. lia.
Qed.

(** C1, as amended.  A record with at most 19 tokens is counted in exactly
    one bucket: the one whose index is the number of tokens of the line,
    the principal number included, which is one more than the number of
    divisors.  That bucket goes up by one as a 32 bit counter and every other
    bucket keeps its value. *)
Theorem counter_bucket_index (line : string) (st : counter.state) (p : Z) (divs : list Z) :
  read_line line = Ok (p :: divs) -> (length divs < 19)%nat -> valid st ->
  exists rows st',
    counter.process_line line st = Ok (rows, st') /\
    length (tokens line) = S (length divs) /\
    counter.prime_count st' !!! S (length divs) =
      wrap32 (counter.prime_count st !!! S (length divs) + 1) /\
    counter.prime_count st' !!! S (length divs) <> counter.prime_count st !!! S (length divs) /\
    forall j : nat, j <> S (length divs) ->
      counter.prime_count st' !!! j = counter.prime_count st !!! j.
Proof.
  intros E Hlen Hst.
  destruct (process_line_record line st p divs E Hlen Hst) as (k & Hline & _).
  destruct Hst as (_ & _ & _ & Hlen20 & Hrange).
  eexists _, _. split; [exact Hline|].
  cbn [after_line counter.prime_count].
  split; [apply read_line_length in E; now rewrite <- E|].
  assert (Hidx : (S (length divs) < length (counter.prime_count st))%nat) by lia.
  rewrite list_lookup_total_alter_eq by exact Hidx.
  repeat split.
  - apply wrap32_incr_neq. now apply Forall_lookup_total_1.
  - intros j Hj. now apply list_lookup_total_alter_ne.
Qed.

Lemma counter_bucket_index_witness :
  exists rows st',
    counter.process_line "561 3 11 17" counter.init = Ok (rows, st') /\
    length (tokens "561 3 11 17") = 4%nat /\
    counter.prime_count st' !!! 4%nat = wrap32 (counter.prime_count counter.init !!! 4%nat + 1) /\
    counter.prime_count st' !!! 4%nat <> counter.prime_count counter.init !!! 4%nat /\
    forall j : nat, j <> 4%nat ->
      counter.prime_count st' !!! j = counter.prime_count counter.init !!! j.
Proof.
  apply (counter_bucket_index "561 3 11 17" counter.init 561 [3; 11; 17]).
  - reflexivity.
  - simpl. lia.
  - apply valid_init.
Defined.

(** C1 as it is written fails: the line [561 3 11 17] has three divisors,
    yet bucket [min 3 19] keeps its value and bucket 4 goes up; and a line
    with 20 divisors is not counted in bucket 19: it indexes the array at
    21. *)
Lemma counter_bucket_not_divisor_count :
  (exists rows st',
     read_line "561 3 11 17" = Ok [561; 3; 11; 17] /\
     counter.process_line "561 3 11 17" counter.init = Ok (rows, st') /\
     counter.prime_count st' !!! Nat.min (length [3; 11; 17]) 19 =
       counter.prime_count counter.init !!! Nat.min (length [3; 11; 17]) 19 /\
     counter.prime_count st' !!! 4%nat = 1) /\
  (length (tokens "9 1 2 3 4 5 6 7 8 9 10 11 12 13 14 15 16 17 18 19 20") = 21%nat /\
   counter.process_line "9 1 2 3 4 5 6 7 8 9 10 11 12 13 14 15 16 17 18 19 20" counter.init
     = Undefined).
Proof.
  split.
  - eexists _, _. repeat split; vm_compute; reflexivity.
  - split; vm_compute; reflexivity.
Qed.

(** ** The threshold loop of one line *)

(** C2, as amended.  For a record, the threshold loop runs while [bound] is
    strictly below the principal number.  Every round scales ([i] goes up
    by one as a 32 bit counter, [bound] is multiplied by ten) and prints the
    counts as they are before the record is counted.  The number [k] of
    rounds is the first one with [p <= bound * 10 ^ k]: none when the
    principal number equals [bound], several when it lies decades above. *)
Theorem counter_threshold_rows (line : string) (st : counter.state) (p : Z) (divs : list Z) :
  read_line line = Ok (p :: divs) -> (length divs < 19)%nat -> valid st ->
  exists (k : nat) (st' : counter.state),
    counter.process_line line st =
      Ok (replicate k (counter.print_row (counter.prime_count st)), st') /\
    counter.bound st' = counter.bound st * 10 ^ Z.of_nat k /\
    counter.i st' = wrap32 (counter.i st + Z.of_nat k) /\
    (forall j : nat, (j < k)%nat -> counter.bound st * 10 ^ Z.of_nat j < p) /\
    p <= counter.bound st * 10 ^ Z.of_nat k /\
    (p <= counter.bound st <-> k = O) /\
    (counter.bound st * 10 < p -> (2 <= k)%nat).
Proof.
  intros E Hlen Hst.
  destruct (process_line_record line st p divs E Hlen Hst) as (k & Hline & Hbelow & Hend).
  exists k, (after_line k (S (length divs)) st).
  split; [exact Hline|]. do 2 (split; [reflexivity|]).
  split; [exact Hbelow|]. split; [exact Hend|]. split; [split|].
  - intros Hp. destruct k as [|k]; [reflexivity|].
    specialize (Hbelow O ltac:(lia)). simpl in Hbelow. lia.
  - intros ->. simpl in Hend. lia.
  - intros Hp. destruct k as [|[|k]]; [| |lia].
    + change (Z.of_nat 0) with 0 in Hend. rewrite Z.pow_0_r in Hend. destruct Hst. lia.
    + change (Z.of_nat 1) with 1 in Hend. rewrite Z.pow_1_r in Hend. lia.
Qed.

Lemma counter_threshold_rows_witness :
  exists (k : nat) (st' : counter.state),
    counter.process_line "41041 7 11 13 41" counter.init =
      Ok (replicate k (counter.print_row (counter.prime_count counter.init)), st') /\
    counter.bound st' = counter.bound counter.init * 10 ^ Z.of_nat k /\
    counter.i st' = wrap32 (counter.i counter.init + Z.of_nat k) /\
    (forall j : nat, (j < k)%nat -> counter.bound counter.init * 10 ^ Z.of_nat j < 41041) /\
    41041 <= counter.bound counter.init * 10 ^ Z.of_nat k /\
    (41041 <= counter.bound counter.init <-> k = O) /\
    (counter.bound counter.init * 10 < 41041 -> (2 <= k)%nat).
Proof.
  apply (counter_threshold_rows "41041 7 11 13 41" counter.init 41041 [7; 11; 13; 41]).
  - reflexivity.
  - simpl. lia.
  - apply valid_init.
Defined.

(** C2 as it is written fails: the first line of a file may have the
    principal number 1000, which is the value of [bound], and then no row is
    printed and nothing is scaled. *)
Lemma counter_no_row_at_bound :
  principal "1000 2 5" = Some (counter.bound counter.init) /\
  exists st',
    counter.process_line "1000 2 5" counter.init = Ok ([], st') /\
    counter.bound st' = counter.bound counter.init /\
    counter.i st' = counter.i counter.init.
Proof.
  split; [reflexivity|]. eexists. repeat split; vm_compute; reflexivity.
Qed.

(** ** The record parser *)

(** C8, as amended.  The token loop fails, by the [std::invalid_argument]
    that [mpz_class] throws and nothing catches, exactly when some token of
    the line is not a base-10 integer for [mpz_class].  On every non-empty
    line whose tokens are all accepted it yields the principal number
    followed by the divisors, token by token and in order.  It has no third
    way to end. *)
Theorem record_parser_failure (line : string) :
  (read_line line = Throw <->
     exists tok, In tok (tokens line) /\ mpz_class tok = None) /\
  (line <> EmptyString ->
   (forall tok, In tok (tokens line) -> mpz_class tok <> None) ->
   exists p divs,
     read_line line = Ok (p :: divs) /\
     principal line = Some p /\
     Forall2 (fun tok n => mpz_class tok = Some n) (tokens line) (p :: divs)) /\
  (read_line line = Throw \/ exists v_nums, read_line line = Ok v_nums).
Proof.
  split; [|split].
  - rewrite read_line_Throw. apply List.Exists_exists.
  - intros Hne Hall.
    destruct (read_line line) as [v_nums| | |] eqn:E.
    + destruct v_nums as [|p divs].
      * apply read_line_nil in E. contradiction.
      * exists p, divs. split; [reflexivity|].
        split; [now apply is_record_principal in E|now apply read_line_Ok].
    + apply read_line_Throw, List.Exists_exists in E as (tok & Hin & Hbad).
      now apply Hall in Hin.
    + now destruct (read_line_defined line).
    + now destruct (read_line_defined line).
  - destruct (read_line line) as [v_nums| | |] eqn:E; eauto;
      now destruct (read_line_defined line).
Qed.

Lemma record_parser_failure_witness :
  read_line "561 3 x 17" = Throw /\
  exists p divs, read_line "561 3 11 17" = Ok (p :: divs) /\ principal "561 3 11 17" = Some p.
Proof.
  split.
  - apply (proj2 (proj1 (record_parser_failure "561 3 x 17"))).
    exists "x". split; [right; right; left|]; reflexivity.
  - destruct (proj1 (proj2 (record_parser_failure "561 3 11 17"))) as (p & divs & E & Hp & _).
    + discriminate.
    + intros tok [<-|[<-|[<-|[<-|[]]]]]; discriminate.
    + exists p, divs. split; [exact E|exact Hp].
Defined.

(** C8 as it is written fails on the empty line: the token loop ends
    without an error and without a principal number, and both programs then
    read [v_nums[0]] of an empty vector. *)
Lemma record_parser_empty_line :
  read_line EmptyString = Ok [] /\
  counter.process_line EmptyString counter.init = Undefined /\
  imprimitive.process_line EmptyString = Undefined.
Proof. repeat split. Qed.

(** ** The filter of [imprimitive.cpp] *)

Lemma rem_zero_iff_mod_zero (p : Z) :
  (0 =? Z.rem p imprimitive.divisor) = (p mod imprimitive.divisor =? 0).
Proof.
  assert (Hd : imprimitive.divisor <> 0) by (unfold imprimitive.divisor; lia).
  apply eq_true_iff_eq. rewrite !Z.eqb_eq. split.
  - intros H. symmetry in H. apply Z.rem_divide in H; [|exact Hd].
    now apply Z.mod_divide.
  - intros H. apply Z.mod_divide in H; [|exact Hd].
    symmetry. now apply Z.rem_divide.
Qed.

Lemma imprimitive_process_line_record (line : string) (p : Z) (divs : list Z) :
  read_line line = Ok (p :: divs) ->
  imprimitive.process_line line = Ok (if selected line then [line] else []).
Proof.
  intros E. unfold imprimitive.process_line, selected.
  rewrite E, (is_record_principal line p divs E), rem_zero_iff_mod_zero.
  now destruct (p mod imprimitive.divisor =? 0).
Qed.

Lemma imprimitive_line_loop_records (lines : list string) :
  Forall (fun line => is_record line = true) lines ->
  imprimitive.line_loop lines = (List.filter selected lines, Ok tt).
Proof.
  induction 1 as [|line lines Hline _ IH]; [reflexivity|].
  apply is_record_spec in Hline as (p & divs & E).
  cbn [imprimitive.line_loop List.filter].
  rewrite (imprimitive_process_line_record line p divs E), IH.
  now destruct (selected line).
Qed.

(** Whatever the input, a line that reaches the output was read as a
    record with a principal number that is a multiple of the divisor. *)
Lemma imprimitive_line_loop_sound (lines out : list string) (r : result unit) :
  imprimitive.line_loop lines = (out, r) ->
  forall line, In line out ->
    exists p divs, read_line line = Ok (p :: divs) /\ p mod imprimitive.divisor = 0.
Proof.
  revert out r. induction lines as [|l lines IH]; intros out r.
  - intros [= <- _] line [].
  - cbn [imprimitive.line_loop].
    destruct (imprimitive.process_line l) as [out1| | |] eqn:El;
      try (intros [= <- _] line []).
    destruct (imprimitive.line_loop lines) as [out2 r2] eqn:E2.
    intros [= <- _] line Hin.
    apply in_app_or in Hin as [Hin|Hin]; [|now apply (IH out2 r2)].
    unfold imprimitive.process_line in El.
    destruct (read_line l) as [[|p divs]| | |] eqn:E; try discriminate.
    rewrite rem_zero_iff_mod_zero in El.
    destruct (Z.eqb_spec (p mod imprimitive.divisor) 0) as [Hp|_];
      injection El as <-; [|destruct Hin].
    destruct Hin as [<-|[]]. eauto.
Qed.

(** C3.  When every line of the file is a record, [divisors.txt] holds
    exactly the lines whose first token denotes a multiple of 5717264681:
    the lines themselves, in the order of the file.  In particular, of three
    records with the principal numbers 5717264681, 5717264682 and
    11434529362 the first and the third are written and the second is
    not. *)
Theorem imprimitive_output (contents : string) :
  Forall (fun line => is_record line = true) (file_lines contents) ->
  imprimitive.main (Some contents) =
    Run (List.filter selected (file_lines contents)) [] (Ok 0) /\
  (forall l1 l2 l3 : string,
     file_lines contents = [l1; l2; l3] ->
     principal l1 = Some 5717264681 ->
     principal l2 = Some 5717264682 ->
     principal l3 = Some 11434529362 ->
     output (imprimitive.main (Some contents)) = [l1; l3]).
Proof.
  intros Hrec.
  assert (Hmain : imprimitive.main (Some contents) =
                    Run (List.filter selected (file_lines contents)) [] (Ok 0)).
  { unfold imprimitive.main. now rewrite imprimitive_line_loop_records. }
  split; [exact Hmain|].
  intros l1 l2 l3 Hlines H1 H2 H3.
  rewrite Hmain, Hlines. cbn [output List.filter].
  unfold selected. rewrite H1, H2, H3. reflexivity.
Qed.

Lemma imprimitive_output_witness :
  let contents :=
    unlines ["5717264681 3 7"; "5717264682 2 3 11"; "11434529362 2 5717264681"] in
  imprimitive.main (Some contents) =
    Run (List.filter selected (file_lines contents)) [] (Ok 0) /\
  (forall l1 l2 l3 : string,
     file_lines contents = [l1; l2; l3] ->
     principal l1 = Some 5717264681 ->
     principal l2 = Some 5717264682 ->
     principal l3 = Some 11434529362 ->
     output (imprimitive.main (Some contents)) = [l1; l3]).
Proof.
  intros contents. apply (imprimitive_output contents).
  repeat constructor.
Defined.

(** C9.  Every line found in [divisors.txt] parses again as a record, and
    the principal number of that record is a multiple of 5717264681. *)
Theorem imprimitive_output_reparses (file : option string) (line : string) :
  In line (output (imprimitive.main file)) ->
  exists p divs,
    read_line line = Ok (p :: divs) /\
    principal line = Some p /\
    p mod imprimitive.divisor = 0.
Proof.
  destruct file as [contents|]; [|intros []].
  unfold imprimitive.main.
  destruct (imprimitive.line_loop (file_lines contents)) as [out r] eqn:E.
  intros Hin.
  assert (Hout : In line out) by (destruct r; exact Hin).
  destruct (imprimitive_line_loop_sound _ _ _ E line Hout) as (p & divs & Hp & Hmod).
  exists p, divs. split; [exact Hp|]. split; [|exact Hmod].
  now apply is_record_principal in Hp.
Qed.

Lemma imprimitive_output_reparses_witness :
  exists p divs,
    read_line "11434529362 2 5717264681" = Ok (p :: divs) /\
    principal "11434529362 2 5717264681" = Some p /\
    p mod imprimitive.divisor = 0.
Proof.
  apply (imprimitive_output_reparses
           (Some (unlines ["5717264681 3 7"; "5717264682 2 3 11"; "11434529362 2 5717264681"]))).
  vm_compute. right. left. reflexivity.
Defined.

(** ** Rows and tallies *)

Lemma print_row_seq (pc : list Z) :
  counter.print_row pc = map (fun j : nat => pc !!! j) (seq 4 12).
Proof. reflexivity. Qed.

Lemma init_lookup (j : nat) :
  (j < 20)%nat -> counter.prime_count counter.init !!! j = 0.
Proof.
  intros Hj. cbn [counter.init counter.prime_count].
  now apply lookup_total_replicate_2.
Qed.

Lemma tally_app (k : nat) (xs ys : list string) :
  tally k (xs ++ ys) = tally k xs + tally k ys.
Proof. induction xs as [|x xs IH]; simpl; [reflexivity|]. rewrite IH. lia. Qed.

Lemma tally_range (k : nat) (lines : list string) :
  0 <= tally k lines <= Z.of_nat (length lines).
Proof.
  induction lines as [|line lines IH]; cbn [tally length]; [lia|].
  destruct (Nat.eqb _ _); lia.
Qed.

Lemma process_line_Ok_inv (line : string) (st st' : counter.state) (rows : list counter.row) :
  counter.process_line line st = Ok (rows, st') -> valid st ->
  exists p divs (k : nat),
    read_line line = Ok (p :: divs) /\ (length divs < 19)%nat /\
    (forall j : nat, (j < k)%nat -> counter.bound st * 10 ^ Z.of_nat j < p) /\
    rows = replicate k (counter.print_row (counter.prime_count st)) /\
    st' = after_line k (S (length divs)) st.
Proof.
  intros Hline Hst.
  assert (Hrec : exists p divs, read_line line = Ok (p :: divs) /\ (length divs < 19)%nat).
  { unfold counter.process_line in Hline.
    destruct (read_line line) as [[|p divs]| | |]; try discriminate.
    exists p, divs. split; [reflexivity|].
    destruct (counter.threshold_loop _ p st) as [[rows1 st1]|]; [|discriminate].
    unfold counter.count_line in Hline. cbn [length] in Hline.
    destruct (Nat.ltb_spec (S (length divs)) 20); [lia|discriminate]. }
  destruct Hrec as (p & divs & E & Hlen).
  destruct (process_line_record line st p divs E Hlen Hst) as (k & Hk & Hbelow & _).
  rewrite Hk in Hline. injection Hline as <- <-.
  exists p, divs, k. auto.
Qed.

Lemma line_loop_snoc (pre : list string) (line : string) (st st1 st2 : counter.state)
    (rows rows1 : list counter.row) :
  counter.line_loop pre st = (rows, Ok st1) ->
  counter.process_line line st1 = Ok (rows1, st2) ->
  counter.line_loop (pre ++ [line]) st = (rows ++ rows1, Ok st2).
Proof.
  intros Hpre Hline. rewrite line_loop_app, Hpre. cbn [counter.line_loop].
  rewrite Hline. now rewrite app_nil_r.
Qed.

(** After a file of countable lines the array holds their tallies. *)
Lemma line_loop_snapshot (lines : list string) :
  Forall (fun line => countable line = true) lines ->
  exists rows st,
    counter.line_loop lines counter.init = (rows, Ok st) /\
    valid st /\
    counter.bound st = 1000 * 10 ^ Z.of_nat (length rows) /\
    counter.i st = wrap32 (2 + Z.of_nat (length rows)) /\
    counter.counter st = wrap64 (Z.of_nat (length lines)) /\
    (forall j : nat, (j < 20)%nat ->
       counter.prime_count st !!! j = wrap32 (tally j lines)) /\
    counter.print_row (counter.prime_count st) = snapshot lines.
Proof.
  intros Hall.
  destruct (line_loop_countable lines counter.init Hall valid_init)
    as (rows & st & Hloop & Hst & Hb & Hi & Hc & Hpc).
  exists rows, st. repeat split; try assumption; try apply Hst.
  - intros j Hj. now rewrite Hpc, init_lookup.
  - rewrite print_row_seq. unfold snapshot. apply map_ext_in.
    intros j Hj. apply in_seq in Hj. rewrite Hpc, init_lookup by lia. reflexivity.
Qed.

(** The rounds of the threshold loop are determined by the principal
    number: [k] is the only number with the two properties below. *)
Lemma process_line_rounds (line : string) (st : counter.state) (p : Z) (divs : list Z) (k : nat) :
  read_line line = Ok (p :: divs) -> (length divs < 19)%nat -> valid st ->
  (forall j : nat, (j < k)%nat -> counter.bound st * 10 ^ Z.of_nat j < p) ->
  p <= counter.bound st * 10 ^ Z.of_nat k ->
  counter.process_line line st =
    Ok (replicate k (counter.print_row (counter.prime_count st)),
        after_line k (S (length divs)) st).
Proof.
  intros E Hlen Hst Hbelow Hend.
  destruct (process_line_record line st p divs E Hlen Hst) as (k' & Hline & Hbelow' & Hend').
  assert (k' = k) as ->; [|exact Hline].
  destruct (Nat.lt_trichotomy k' k) as [Hlt|[Heq|Hgt]]; [|exact Heq|].
  - specialize (Hbelow k' Hlt). lia.
  - specialize (Hbelow' k Hgt). lia.
Qed.

(** The fuel of the threshold loop never runs out in a run of [main]. *)
Lemma line_loop_terminates (lines : list string) (st : counter.state) :
  valid st -> snd (counter.line_loop lines st) <> Diverge.
Proof.
  revert st. induction lines as [|line lines IH]; intros st Hst; [discriminate|].
  cbn [counter.line_loop].
  destruct (counter.process_line line st) as [[rows st1]| | |] eqn:Hline; try discriminate.
  - destruct (process_line_Ok_inv _ _ _ _ Hline Hst) as (p & divs & k & _ & _ & _ & _ & ->).
    specialize (IH _ (valid_after_line k (S (length divs)) st Hst)).
    destruct (counter.line_loop lines _) as [rows' r]. exact IH.
  - exfalso. unfold counter.process_line in Hline.
    destruct (read_line line) as [[|p divs]| | |] eqn:E; try discriminate.
    + destruct (threshold_loop_total p st (proj1 Hst)) as [[rows1 st2] Hloop].
      rewrite Hloop in Hline. unfold counter.count_line in Hline.
      destruct (length (p :: divs) <? 20)%nat; discriminate.
    + now destruct (read_line_defined line).
Qed.

Lemma counter_main_terminates (file : option string) :
  status (counter.main file) <> Diverge.
Proof.
  destruct file as [contents|]; [|discriminate].
  unfold counter.main.
  pose proof (line_loop_terminates (file_lines contents) counter.init valid_init) as H.
  destruct (counter.line_loop (file_lines contents) counter.init) as [rows [st| | |]];
    try discriminate. now cbn in H.
Qed.

(** ** The rows of [counter.cpp] *)

(** C4.  When every line of the file can be counted, the output is the
    rows printed by the threshold loops, one per scaling of [bound],
    followed by exactly one more row.  That last row is printed whatever
    the threshold loops did, and shows the counts of the whole file for the
    buckets 4 to 15: twelve numbers.  For the empty file it is the only row
    and it is all zeros. *)
Theorem counter_final_row (contents : string) :
  Forall (fun line => countable line = true) (file_lines contents) ->
  (exists rows st,
     counter.line_loop (file_lines contents) counter.init = (rows, Ok st) /\
     counter.bound st = 1000 * 10 ^ Z.of_nat (length rows) /\
     counter.main (Some contents) =
       Run (rows ++ [counter.print_row (counter.prime_count st)]) [] (Ok 0) /\
     counter.print_row (counter.prime_count st) = snapshot (file_lines contents) /\
     length (snapshot (file_lines contents)) = 12%nat) /\
  counter.main (Some EmptyString) = Run [replicate 12 0] [] (Ok 0).
Proof.
  intros Hall. split; [|reflexivity].
  destruct (line_loop_snapshot _ Hall) as (rows & st & Hloop & _ & Hb & _ & _ & _ & Hrow).
  exists rows, st. split; [exact Hloop|]. split; [exact Hb|].
  split; [|split; [exact Hrow|reflexivity]].
  unfold counter.main. now rewrite Hloop.
Qed.

Lemma counter_final_row_witness :
  let contents := unlines ["561 3 11 17"; "41041 7 11 13 41"; "825265 5 7 17 19 73"] in
  (exists rows st,
     counter.line_loop (file_lines contents) counter.init = (rows, Ok st) /\
     counter.bound st = 1000 * 10 ^ Z.of_nat (length rows) /\
     counter.main (Some contents) =
       Run (rows ++ [counter.print_row (counter.prime_count st)]) [] (Ok 0) /\
     counter.print_row (counter.prime_count st) = snapshot (file_lines contents) /\
     length (snapshot (file_lines contents)) = 12%nat) /\
  counter.main (Some EmptyString) = Run [replicate 12 0] [] (Ok 0).
Proof.
  intros contents. apply (counter_final_row contents).
  repeat constructor.
Defined.

Lemma wrap32_succ_neq (t : Z) : wrap32 (t + 1) <> wrap32 t.
Proof.
  unfold wrap32. rewrite <- Z.add_mod_idemp_l by lia.
  apply wrap32_incr_neq. apply Z.mod_pos_bound. lia.
Qed.

Lemma snapshot_snoc_neq (pre : list string) (line : string) :
  (4 <= length (tokens line) <= 15)%nat ->
  snapshot pre <> snapshot (pre ++ [line]).
Proof.
  intros Hn Heq. unfold snapshot in Heq.
  assert (Hin : In (length (tokens line)) (seq 4 12)) by (apply in_seq; lia).
  pose proof (proj1 List.map_ext_in_iff Heq _ Hin) as H.
  cbv beta in H. rewrite tally_app in H. cbn [tally] in H.
  rewrite Nat.eqb_refl, Z.add_0_r in H.
  symmetry in H. now apply wrap32_succ_neq in H.
Qed.

(** C5.  When every line of the file can be counted, the rows that the
    threshold loop prints for a line show the counts of the lines before it
    and not that line: they are all equal to the snapshot of the earlier
    lines, which differs from the snapshot that includes the line whenever
    the line falls in a printed bucket.  In particular four records with the
    principal numbers 500, 5000, 50000 and 500000 give three such rows, one
    before each of the last three records is counted, and then the final
    row. *)
Theorem counter_rows_are_snapshots (contents : string) :
  Forall (fun line => countable line = true) (file_lines contents) ->
  (forall (pre post : list string) (line : string),
     file_lines contents = pre ++ line :: post ->
     exists rows_pre st_pre rows_line st_line rows_post,
       counter.line_loop pre counter.init = (rows_pre, Ok st_pre) /\
       counter.process_line line st_pre = Ok (rows_line, st_line) /\
       output (counter.main (Some contents)) = rows_pre ++ rows_line ++ rows_post /\
       Forall (fun row => row = snapshot pre) rows_line /\
       counter.print_row (counter.prime_count st_line) = snapshot (pre ++ [line]) /\
       ((4 <= length (tokens line) <= 15)%nat -> snapshot pre <> snapshot (pre ++ [line]))) /\
  (forall l1 l2 l3 l4 : string,
     file_lines contents = [l1; l2; l3; l4] ->
     principal l1 = Some 500 ->
     principal l2 = Some 5000 ->
     principal l3 = Some 50000 ->
     principal l4 = Some 500000 ->
     output (counter.main (Some contents)) =
       [snapshot [l1]; snapshot [l1; l2]; snapshot [l1; l2; l3];
        snapshot [l1; l2; l3; l4]]).
Proof.
  intros Hall. split.
  - intros pre post line Hsplit. rewrite Hsplit in Hall.
    apply Forall_app in Hall as [Hpre Hrest].
    apply Forall_cons_1 in Hrest as [Hline Hpost].
    destruct (line_loop_snapshot pre Hpre) as (rows_pre & st_pre & Hloop & Hst & _ & _ & _ & _ & Hrow).
    apply countable_spec in Hline as (p & divs & E & Hlen).
    destruct (process_line_record line st_pre p divs E Hlen Hst) as (k & Hk & _).
    pose proof (valid_after_line k (S (length divs)) st_pre Hst) as Hst1.
    destruct (line_loop_countable post _ Hpost Hst1) as (rows2 & st2 & Hloop2 & _).
    assert (Hsnoc : Forall (fun l => countable l = true) (pre ++ [line])).
    { apply Forall_app. split; [exact Hpre|]. constructor; [|constructor].
      apply countable_spec. eauto. }
    destruct (line_loop_snapshot _ Hsnoc) as (rows' & st' & Hloop' & _ & _ & _ & _ & _ & Hrow').
    rewrite (line_loop_snoc _ _ _ _ _ _ _ Hloop Hk) in Hloop'. injection Hloop' as _ <-.
    eexists rows_pre, st_pre, _, _, (rows2 ++ [counter.print_row (counter.prime_count st2)]).
    split; [exact Hloop|]. split; [exact Hk|]. split; [|split; [|split]].
    + unfold counter.main. rewrite Hsplit, line_loop_app, Hloop.
      cbn [counter.line_loop]. rewrite Hk, Hloop2. cbn [output].
      now rewrite <- !app_assoc.
    + rewrite Hrow. now apply Forall_replicate.
    + exact Hrow'.
    + apply snapshot_snoc_neq.
  - intros l1 l2 l3 l4 Hlines H1 H2 H3 H4.
    rewrite Hlines in Hall.
    apply Forall_cons_1 in Hall as [Hc1 Hall]. apply Forall_cons_1 in Hall as [Hc2 Hall].
    apply Forall_cons_1 in Hall as [Hc3 Hall]. apply Forall_cons_1 in Hall as [Hc4 _].
    apply countable_spec in Hc1 as (p1 & d1 & E1 & Hd1).
    apply countable_spec in Hc2 as (p2 & d2 & E2 & Hd2).
    apply countable_spec in Hc3 as (p3 & d3 & E3 & Hd3).
    apply countable_spec in Hc4 as (p4 & d4 & E4 & Hd4).
    rewrite (is_record_principal _ _ _ E1) in H1. injection H1 as ->.
    rewrite (is_record_principal _ _ _ E2) in H2. injection H2 as ->.
    rewrite (is_record_principal _ _ _ E3) in H3. injection H3 as ->.
    rewrite (is_record_principal _ _ _ E4) in H4. injection H4 as ->.
    set (s1 := after_line 0 (S (length d1)) counter.init).
    set (s2 := after_line 1 (S (length d2)) s1).
    set (s3 := after_line 1 (S (length d3)) s2).
    set (s4 := after_line 1 (S (length d4)) s3).
    assert (V1 : valid s1) by apply valid_after_line, valid_init.
    assert (V2 : valid s2) by apply valid_after_line, V1.
    assert (V3 : valid s3) by apply valid_after_line, V2.
    assert (P1 : counter.process_line l1 counter.init = Ok ([], s1)).
    { apply (process_line_rounds l1 counter.init 500 d1 0 E1 Hd1 valid_init).
      - intros j Hj. lia.
      - now vm_compute. }
    assert (P2 : counter.process_line l2 s1
                 = Ok ([counter.print_row (counter.prime_count s1)], s2)).
    { apply (process_line_rounds l2 s1 5000 d2 1 E2 Hd2 V1).
      - intros j Hj. assert (j = O) as -> by lia. now vm_compute.
      - now vm_compute. }
    assert (P3 : counter.process_line l3 s2
                 = Ok ([counter.print_row (counter.prime_count s2)], s3)).
    { apply (process_line_rounds l3 s2 50000 d3 1 E3 Hd3 V2).
      - intros j Hj. assert (j = O) as -> by lia. now vm_compute.
      - now vm_compute. }
    assert (P4 : counter.process_line l4 s3
                 = Ok ([counter.print_row (counter.prime_count s3)], s4)).
    { apply (process_line_rounds l4 s3 500000 d4 1 E4 Hd4 V3).
      - intros j Hj. assert (j = O) as -> by lia. now vm_compute.
      - now vm_compute. }
    assert (L1 : counter.line_loop [l1] counter.init = ([], Ok s1)).
    { apply (line_loop_snoc [] l1 counter.init counter.init s1 [] []); [reflexivity|exact P1]. }
    pose proof (line_loop_snoc _ _ _ _ _ _ _ L1 P2) as L2.
    pose proof (line_loop_snoc _ _ _ _ _ _ _ L2 P3) as L3.
    pose proof (line_loop_snoc _ _ _ _ _ _ _ L3 P4) as L4.
    cbn [app] in L2, L3, L4.
    assert (C1 : Forall (fun l => countable l = true) [l1])
      by (repeat constructor; apply countable_spec; eauto).
    assert (C2 : Forall (fun l => countable l = true) [l1; l2])
      by (repeat constructor; apply countable_spec; eauto).
    assert (C3 : Forall (fun l => countable l = true) [l1; l2; l3])
      by (repeat constructor; apply countable_spec; eauto).
    assert (C4 : Forall (fun l => countable l = true) [l1; l2; l3; l4])
      by (repeat constructor; apply countable_spec; eauto).
    destruct (line_loop_snapshot _ C1) as (? & ? & L1' & _ & _ & _ & _ & _ & R1).
    destruct (line_loop_snapshot _ C2) as (? & ? & L2' & _ & _ & _ & _ & _ & R2).
    destruct (line_loop_snapshot _ C3) as (? & ? & L3' & _ & _ & _ & _ & _ & R3).
    destruct (line_loop_snapshot _ C4) as (? & ? & L4' & _ & _ & _ & _ & _ & R4).
    rewrite L1 in L1'. injection L1' as <- <-.
    rewrite L2 in L2'. injection L2' as <- <-.
    rewrite L3 in L3'. injection L3' as <- <-.
    rewrite L4 in L4'. injection L4' as <- <-.
    unfold counter.main. rewrite Hlines, L4. cbn [output app].
    now rewrite R1, R2, R3, R4.
Qed.

Lemma counter_rows_are_snapshots_witness :
  let contents :=
    unlines ["500 2 5 5 5"; "5000 2 2 2 5 5"; "50000 2 2 2 2 5 5"; "500000 2 2 2 2 2 5 5"] in
  (forall (pre post : list string) (line : string),
     file_lines contents = pre ++ line :: post ->
     exists rows_pre st_pre rows_line st_line rows_post,
       counter.line_loop pre counter.init = (rows_pre, Ok st_pre) /\
       counter.process_line line st_pre = Ok (rows_line, st_line) /\
       output (counter.main (Some contents)) = rows_pre ++ rows_line ++ rows_post /\
       Forall (fun row => row = snapshot pre) rows_line /\
       counter.print_row (counter.prime_count st_line) = snapshot (pre ++ [line]) /\
       ((4 <= length (tokens line) <= 15)%nat -> snapshot pre <> snapshot (pre ++ [line]))) /\
  (forall l1 l2 l3 l4 : string,
     file_lines contents = [l1; l2; l3; l4] ->
     principal l1 = Some 500 ->
     principal l2 = Some 5000 ->
     principal l3 = Some 50000 ->
     principal l4 = Some 500000 ->
     output (counter.main (Some contents)) =
       [snapshot [l1]; snapshot [l1; l2]; snapshot [l1; l2; l3];
        snapshot [l1; l2; l3; l4]]).
Proof.
  intros contents. apply (counter_rows_are_snapshots contents).
  repeat constructor.
Defined.

(** ** Conservation *)

(** Every line with fewer than 20 tokens is in exactly one of the 20
    tallies. *)
Lemma tally_sum (lines : list string) :
  Forall (fun line => (length (tokens line) < 20)%nat) lines ->
  sumZ (map (fun j : nat => tally j lines) (seq 0 20)) = Z.of_nat (length lines).
Proof.
  induction 1 as [|line lines Hline _ IH]; [reflexivity|].
  unfold sumZ in *. cbn [seq map foldr tally length] in *.
  set (n := length (tokens line)) in *. clearbody n.
  do 20 (destruct n as [|n]; [cbn [Nat.eqb]; lia|]). lia.
Qed.

Lemma countable_tokens (line : string) :
  countable line = true -> (length (tokens line) < 20)%nat.
Proof. unfold countable. rewrite andb_true_iff, Nat.ltb_lt. tauto. Qed.

(** C7, as amended.  When every line of the file can be counted and there
    are fewer than [2 ^ 32] of them, the twelve values of the final row plus
    the values of the eight buckets that no row shows (0 to 3 and 16 to 19)
    add up to the number of lines, which is also the value of [counter]. *)
Theorem counter_conservation (contents : string) :
  Forall (fun line => countable line = true) (file_lines contents) ->
  Z.of_nat (length (file_lines contents)) < 2 ^ 32 ->
  exists rows st,
    counter.line_loop (file_lines contents) counter.init = (rows, Ok st) /\
    output (counter.main (Some contents)) =
      rows ++ [counter.print_row (counter.prime_count st)] /\
    sumZ (counter.print_row (counter.prime_count st)) +
      sumZ (map (fun j : nat => counter.prime_count st !!! j)
              [0; 1; 2; 3; 16; 17; 18; 19]%nat)
      = Z.of_nat (length (file_lines contents)) /\
    counter.counter st = Z.of_nat (length (file_lines contents)).
Proof.
  intros Hall Hsize.
  destruct (line_loop_snapshot _ Hall) as (rows & st & Hloop & _ & _ & _ & Hc & Hpc & _).
  exists rows, st. split; [exact Hloop|]. split; [|split].
  - unfold counter.main. now rewrite Hloop.
  - assert (Ht : forall j : nat, (j < 20)%nat ->
                 counter.prime_count st !!! j = tally j (file_lines contents)).
    { intros j Hj. rewrite Hpc by exact Hj. apply wrap32_small.
      pose proof (tally_range j (file_lines contents)). lia. }
    pose proof (tally_sum (file_lines contents)) as Hsum.
    rewrite print_row_seq. unfold sumZ in *. cbn [seq map foldr] in *.
    rewrite !Ht by lia. rewrite <- Hsum; [lia|].
    eapply List.Forall_impl; [|exact Hall]. intros line. apply countable_tokens.
  - rewrite Hc. unfold wrap64. apply Z.mod_small. lia.
Qed.

Lemma counter_conservation_witness :
  let contents := unlines ["561 3 11 17"; "41041 7 11 13 41"; "825265 5 7 17 19 73"] in
  exists rows st,
    counter.line_loop (file_lines contents) counter.init = (rows, Ok st) /\
    output (counter.main (Some contents)) =
      rows ++ [counter.print_row (counter.prime_count st)] /\
    sumZ (counter.print_row (counter.prime_count st)) +
      sumZ (map (fun j : nat => counter.prime_count st !!! j)
              [0; 1; 2; 3; 16; 17; 18; 19]%nat)
      = Z.of_nat (length (file_lines contents)) /\
    counter.counter st = Z.of_nat (length (file_lines contents)).
Proof.
  intros contents. apply (counter_conservation contents).
  - repeat constructor.
  - vm_compute. reflexivity.
Defined.

(** C7 as it is written fails: a file whose only record has no divisors is
    counted in bucket 1, so the final row adds up to 0, bucket 19 holds 0,
    and one record was processed. *)
Lemma counter_conservation_misses_bucket :
  exists final st,
    counter.line_loop (file_lines (unlines ["561"])) counter.init = ([], Ok st) /\
    counter.main (Some (unlines ["561"])) = Run [final] [] (Ok 0) /\
    sumZ final + counter.prime_count st !!! 19%nat = 0 /\
    length (file_lines (unlines ["561"])) = 1%nat /\
    counter.counter st = 1.
Proof.
  eexists _, _. split; [vm_compute; reflexivity|].
  split; [vm_compute; reflexivity|]. repeat split.
Qed.

(** ** Rows only grow *)

Lemma rows_le_refl (r : counter.row) : rows_le r r.
Proof. unfold rows_le. induction r; constructor; [lia|assumption]. Qed.

Lemma rows_le_trans (r1 r2 r3 : counter.row) :
  rows_le r1 r2 -> rows_le r2 r3 -> rows_le r1 r3.
Proof.
  unfold rows_le. intros H12. revert r3.
  induction H12 as [|x y r1 r2 Hxy _ IH]; intros r3 H23; inversion H23; subst;
    constructor; [lia|auto].
Qed.

Lemma print_row_mono (pc pc' : list Z) :
  (forall j : nat, (j < 20)%nat -> pc !!! j <= pc' !!! j) ->
  rows_le (counter.print_row pc) (counter.print_row pc').
Proof.
  intros H. rewrite !print_row_seq. unfold rows_le. cbn [seq map].
  repeat (constructor; [apply H; lia|]). constructor.
Qed.

(** Counting a line without wrapping around lowers no bucket. *)
Lemma count_le (pc : list Z) (size : nat) (room : Z) :
  length pc = 20%nat -> (size < 20)%nat -> Forall (fun c => 0 <= c < 2 ^ 32) pc ->
  0 <= room ->
  (forall j : nat, (j < 20)%nat -> pc !!! j + (room + 1) < 2 ^ 32) ->
  forall j : nat, (j < 20)%nat ->
    pc !!! j <= alter (fun c => wrap32 (c + 1)) size pc !!! j /\
    alter (fun c => wrap32 (c + 1)) size pc !!! j + room < 2 ^ 32.
Proof.
  intros Hlen Hsize Hrange Hroom Hfree j Hj.
  rewrite alter_count_lookup by assumption.
  specialize (Hfree j Hj).
  assert (0 <= pc !!! j < 2 ^ 32) by (apply Forall_lookup_total_1; [assumption|lia]).
  rewrite wrap32_small by (destruct (Nat.eqb size j); lia).
  destruct (Nat.eqb size j); lia.
Qed.

(** As long as no bucket can wrap around, every row is below, column by
    column, every row printed after it, and below the counts the loop ends
    with. *)
Lemma line_loop_sorted (lines : list string) (st : counter.state)
    (rows : list counter.row) (r : result counter.state) :
  valid st ->
  (forall j : nat, (j < 20)%nat ->
     counter.prime_count st !!! j + Z.of_nat (length lines) < 2 ^ 32) ->
  counter.line_loop lines st = (rows, r) ->
  StronglySorted rows_le rows /\
  Forall (rows_le (counter.print_row (counter.prime_count st))) rows /\
  (forall st', r = Ok st' ->
     Forall (fun row => rows_le row (counter.print_row (counter.prime_count st'))) rows /\
     forall j : nat, (j < 20)%nat ->
       counter.prime_count st !!! j <= counter.prime_count st' !!! j).
Proof.
  revert st rows r. induction lines as [|line lines IH]; intros st rows r Hst Hroom.
  - intros [= <- <-]. split; [constructor|]. split; [constructor|].
    intros st' [= <-]. split; [constructor|intros; lia].
  - cbn [counter.line_loop].
    destruct (counter.process_line line st) as [[rows1 st1]| | |] eqn:Hline;
      try (intros [= <- <-]; split; [constructor|]; split; [constructor|]; discriminate).
    destruct (counter.line_loop lines st1) as [rows2 r2] eqn:Hloop.
    intros [= <- <-].
    destruct (process_line_Ok_inv _ _ _ _ Hline Hst) as (p & divs & k & E & Hlen & _ & -> & ->).
    pose proof (valid_after_line k (S (length divs)) st Hst) as Hst1.
    destruct Hst as (_ & _ & _ & Hlen20 & Hrange).
    assert (Hstep : forall j : nat, (j < 20)%nat ->
              counter.prime_count st !!! j
                <= counter.prime_count (after_line k (S (length divs)) st) !!! j /\
              counter.prime_count (after_line k (S (length divs)) st) !!! j
                + Z.of_nat (length lines) < 2 ^ 32).
    { cbn [after_line counter.prime_count].
      apply count_le; try assumption; try lia.
      intros j Hj. specialize (Hroom j Hj). cbn [length] in Hroom. lia. }
    destruct (IH _ _ _ Hst1 (fun j Hj => proj2 (Hstep j Hj)) Hloop) as (Hsorted & Hlow & Hend).
    set (row0 := counter.print_row (counter.prime_count st)) in *.
    set (row1 := counter.print_row (counter.prime_count (after_line k (S (length divs)) st))) in *.
    assert (H01 : rows_le row0 row1).
    { apply print_row_mono. intros j Hj. apply Hstep, Hj. }
    assert (Hall : Forall (rows_le row0) (replicate k row0 ++ rows2)).
    { apply Forall_app. split; [apply Forall_replicate, rows_le_refl|].
      eapply List.Forall_impl; [|exact Hlow]. intros row. now apply rows_le_trans. }
    split; [|split; [exact Hall|]].
    + apply StronglySorted_app_2; [| |exact Hsorted].
      * intros x1 x2 [-> _]%elem_of_replicate Hx2.
        rewrite Forall_forall in Hlow. eapply rows_le_trans; [exact H01|]. now apply Hlow.
      * clear. induction k as [|k IHk]; constructor; [exact IHk|].
        apply Forall_replicate, rows_le_refl.
    + intros st' ->. destruct (Hend st' eq_refl) as [Hup Hpc]. split.
      * apply Forall_app. split; [|exact Hup].
        apply Forall_replicate. eapply rows_le_trans; [exact H01|].
        apply print_row_mono, Hpc.
      * intros j Hj. specialize (Hpc j Hj). destruct (Hstep j Hj). lia.
Qed.

(** C10, as amended.  For every file with fewer than [2 ^ 32] lines, each
    row of the output is below, column by column, every row after it; the
    final row, when there is one, is the greatest. *)
Theorem counter_rows_monotone (contents : string) :
  Z.of_nat (length (file_lines contents)) < 2 ^ 32 ->
  StronglySorted rows_le (output (counter.main (Some contents))).
Proof.
  intros Hsize. unfold counter.main.
  destruct (counter.line_loop (file_lines contents) counter.init) as [rows r] eqn:Hloop.
  apply line_loop_sorted in Hloop as (Hsorted & _ & Hend); [|apply valid_init|].
  - destruct r as [st| | |]; cbn [output]; try exact Hsorted.
    destruct (Hend st eq_refl) as [Hup _].
    apply StronglySorted_app_2; [|exact Hsorted|repeat constructor].
    intros x1 x2 Hx1 ->%list_elem_of_singleton.
    rewrite Forall_forall in Hup. now apply Hup.
  - intros j Hj. rewrite init_lookup by exact Hj. lia.
Qed.

Lemma counter_rows_monotone_witness :
  StronglySorted rows_le
    (output (counter.main
       (Some (unlines ["561 3 11 17"; "41041 7 11 13 41"; "825265 5 7 17 19 73"])))).
Proof.
  apply counter_rows_monotone. vm_compute. reflexivity.
Defined.

Lemma tally_replicate (k n : nat) (line : string) :
  length (tokens line) = k -> tally k (replicate n line) = Z.of_nat n.
Proof.
  intros Hk. induction n as [|n IH]; [reflexivity|].
  cbn [replicate tally]. rewrite IH, Hk, Nat.eqb_refl. lia.
Qed.

(** A file of [n + 2] lines of four tokens, the second of which makes the
    threshold loop print a row. *)
Lemma bucket_wraps_after (n : nat) :
  Z.of_nat n = 2 ^ 32 - 2 ->
  ~ StronglySorted rows_le
      (output (counter.main
         (Some (unlines ("1 2 3 4" :: "2000 2 3 4" :: replicate n "1 2 3 4"))))).
Proof.
  intros Hn.
  set (lines := "1 2 3 4" :: "2000 2 3 4" :: replicate n "1 2 3 4").
  assert (Hfile : file_lines (unlines lines) = lines).
  { apply file_lines_unlines. do 2 (constructor; [reflexivity|]).
    now apply Forall_replicate. }
  assert (Hall : Forall (fun line => countable line = true) lines).
  { do 2 (constructor; [reflexivity|]). now apply Forall_replicate. }
  destruct (line_loop_snapshot lines Hall) as (rows & st & Hloop & _ & _ & _ & _ & Hpc & _).
  assert (Hfirst : exists s2,
             counter.line_loop ["1 2 3 4"; "2000 2 3 4"] counter.init
             = ([[1; 0; 0; 0; 0; 0; 0; 0; 0; 0; 0; 0]], Ok s2)).
  { eexists. vm_compute. reflexivity. }
  destruct Hfirst as [s2 Hfirst].
  assert (Hlast : counter.prime_count st !!! 4%nat = 0).
  { rewrite Hpc by lia. unfold lines. cbn [tally].
    rewrite (tally_replicate 4 n "1 2 3 4") by reflexivity.
    change (length (tokens "1 2 3 4")) with 4%nat.
    change (length (tokens "2000 2 3 4")) with 4%nat.
    rewrite Nat.eqb_refl, Hn. reflexivity. }
  unfold counter.main. rewrite Hfile, Hloop. cbn [output].
  change lines with (["1 2 3 4"; "2000 2 3 4"] ++ replicate n "1 2 3 4") in Hloop.
  rewrite line_loop_app, Hfirst in Hloop.
  destruct (counter.line_loop (replicate n "1 2 3 4") s2) as [rows' r'].
  injection Hloop as <- _. cbn [app].
  intros Hsorted. apply StronglySorted_inv in Hsorted as [_ Hbelow].
  apply Forall_app in Hbelow as [_ Hbelow]. apply Forall_cons_1 in Hbelow as [Hbelow _].
  rewrite print_row_seq in Hbelow. cbn [seq map] in Hbelow.
  apply Forall2_cons_1 in Hbelow as [Hbelow _]. lia.
Qed.

(** C10 as it is written fails on a file of [2 ^ 32] lines.  After the
    second line a row with 1 in its first column has been printed; all the
    lines have four tokens, so bucket 4 is incremented [2 ^ 32] times and the
    final row shows 0 in that column. *)
Lemma counter_rows_wrap_around :
  ~ StronglySorted rows_le
      (output (counter.main
         (Some (unlines ("1 2 3 4" :: "2000 2 3 4"
                           :: replicate (Z.to_nat (2 ^ 32 - 2)) "1 2 3 4"))))).
Proof. apply bucket_wraps_after. apply Z2Nat.id. lia. Qed.

(** ** The threshold state *)

Lemma reachable_iter (st : counter.state) (p : Z) (k : nat) :
  reachable st ->
  (forall j : nat, (j < k)%nat -> counter.bound st * 10 ^ Z.of_nat j < p) ->
  reachable (Nat.iter k counter.scale st).
Proof.
  intros Hst. induction k as [|k IH]; intros Hbelow; [exact Hst|].
  rewrite Nat.iter_succ. eapply rtc_r; [apply IH; intros j Hj; apply Hbelow; lia|].
  apply (step_scale _ p). rewrite scale_iter. cbn [counter.bound]. apply Hbelow. lia.
Qed.

(** Every state in which the line loop can be left is reachable. *)
Lemma line_loop_reachable (lines : list string) (st st' : counter.state)
    (rows : list counter.row) :
  valid st -> reachable st ->
  counter.line_loop lines st = (rows, Ok st') ->
  reachable st' /\
  counter.bound st' = counter.bound st * 10 ^ Z.of_nat (length rows).
Proof.
  revert st rows. induction lines as [|line lines IH]; intros st rows Hst Hreach.
  - intros [= <- <-]. split; [exact Hreach|]. simpl. lia.
  - cbn [counter.line_loop].
    destruct (counter.process_line line st) as [[rows1 st1]| | |] eqn:Hline; try discriminate.
    destruct (counter.line_loop lines st1) as [rows2 r2] eqn:Hloop.
    intros [= <- ->].
    destruct (process_line_Ok_inv _ _ _ _ Hline Hst) as (p & divs & k & _ & Hlen & Hbelow & -> & ->).
    assert (Hreach1 : reachable (after_line k (S (length divs)) st)).
    { eapply rtc_r; [apply (reachable_iter st p k Hreach Hbelow)|].
      apply (step_count _ _ (S (length divs))). apply count_line_iter; [exact Hst|lia]. }
    destruct (IH _ rows2 (valid_after_line _ _ _ Hst) Hreach1 Hloop) as [Hreach' Hb].
    split; [exact Hreach'|]. rewrite Hb. cbn [after_line counter.bound].
    rewrite length_app, length_replicate, Nat2Z.inj_add, Z.pow_add_r by lia. lia.
Qed.

(** C6, as amended.  At every point of a run, [bound] is [1000 * 10 ^ k] and
    [i] is [2 + k] as a 32 bit number, where [k] is the number of scalings so
    far, which is the number of rows printed.  So [bound] equals
    [1000 * 10 ^ (i - 2)] as long as there were fewer than [2 ^ 32 - 2]
    scalings, and every scaling makes [bound] strictly greater. *)
Theorem counter_bound_invariant :
  (forall (lines : list string) (rows : list counter.row) (st : counter.state),
     counter.line_loop lines counter.init = (rows, Ok st) ->
     reachable st /\ counter.bound st = 1000 * 10 ^ Z.of_nat (length rows)) /\
  (forall st : counter.state,
     reachable st ->
     exists k : nat,
       counter.bound st = 1000 * 10 ^ Z.of_nat k /\
       counter.i st = wrap32 (2 + Z.of_nat k) /\
       (Z.of_nat k < 2 ^ 32 - 2 -> counter.bound st = 1000 * 10 ^ (counter.i st - 2)) /\
       counter.bound st < counter.bound (counter.scale st)).
Proof.
  split.
  - intros lines rows st Hloop.
    apply (line_loop_reachable lines counter.init st rows valid_init (rtc_refl _ _) Hloop).
  - intros st Hreach.
    assert (Hinv : exists k : nat,
               counter.bound st = 1000 * 10 ^ Z.of_nat k /\
               counter.i st = wrap32 (2 + Z.of_nat k)).
    { revert st Hreach. apply rtc_ind_r.
      - exists O. split; reflexivity.
      - intros st1 st2 _ Hstep (k & Hb & Hi).
        destruct Hstep as [st1 p Hlt|st1 st2 size Hcount].
        + exists (S k). cbn [counter.scale counter.bound counter.i]. split.
          * rewrite Hb, Nat2Z.inj_succ, Z.pow_succ_r by lia. lia.
          * rewrite Hi, wrap32_succ. f_equal. lia.
        + exists k. unfold counter.count_line in Hcount.
          destruct (size <? 20)%nat; [|discriminate].
          injection Hcount as <-. split; assumption. }
    destruct Hinv as (k & Hb & Hi). exists k.
    split; [exact Hb|]. split; [exact Hi|]. split.
    + intros Hk. rewrite Hi, wrap32_small by lia. rewrite Hb. do 2 f_equal. lia.
    + cbn [counter.scale counter.bound].
      assert (0 < 10 ^ Z.of_nat k) by (apply Z.pow_pos_nonneg; lia). lia.
Qed.

Lemma counter_bound_invariant_witness :
  exists k : nat,
    counter.bound (counter.scale counter.init) = 1000 * 10 ^ Z.of_nat k /\
    counter.i (counter.scale counter.init) = wrap32 (2 + Z.of_nat k) /\
    (Z.of_nat k < 2 ^ 32 - 2 ->
     counter.bound (counter.scale counter.init)
       = 1000 * 10 ^ (counter.i (counter.scale counter.init) - 2)) /\
    counter.bound (counter.scale counter.init)
      < counter.bound (counter.scale (counter.scale counter.init)).
Proof.
  apply (proj2 counter_bound_invariant (counter.scale counter.init)).
  apply rtc_once, (step_scale counter.init 41041). reflexivity.
Defined.

Lemma free_of_zeros (delim : ascii) (n : nat) :
  Ascii.eqb "0" delim = false -> free_of delim (zeros n) = true.
Proof.
  intros H. induction n as [|n IH]; [reflexivity|].
  cbn [zeros free_of]. now rewrite H, IH.
Qed.

Lemma c_str_zeros (n : nat) : c_str (zeros n) = zeros n.
Proof.
  induction n as [|n IH]; [reflexivity|].
  cbn [zeros c_str]. change (Ascii.eqb "0" zero) with false. cbv iota. now rewrite IH.
Qed.

Lemma digits_zeros (acc : Z) (n : nat) :
  digits acc (zeros n) = Some (acc * 10 ^ Z.of_nat n).
Proof.
  revert acc. induction n as [|n IH]; intros acc.
  - simpl. f_equal. lia.
  - cbn [zeros digits]. change (isspace "0") with false. change (digit_value "0") with (Some 0).
    cbv iota. rewrite IH, Nat2Z.inj_succ, Z.pow_succ_r by lia. f_equal. lia.
Qed.

Lemma read_line_power_of_ten (n : nat) :
  read_line (String "1" (zeros n)) = Ok [10 ^ Z.of_nat n].
Proof.
  apply read_line_Ok. unfold tokens.
  rewrite getline_all_free by (cbn [free_of]; now rewrite free_of_zeros).
  constructor; [|constructor].
  unfold mpz_class. cbn [c_str]. change (Ascii.eqb "1" zero) with false. cbv iota.
  rewrite c_str_zeros. unfold mpz_set_str. cbn [skip_space].
  change (isspace "1") with false. cbv iota.
  change (digit_value "1") with (Some 1). cbv iota.
  cbn [digits]. change (isspace "1") with false. change (digit_value "1") with (Some 1).
  cbv iota. rewrite digits_zeros. f_equal. lia.
Qed.

(** A file whose only line is the numeral of [10 ^ n]. *)
Lemma power_of_ten_line (n : nat) :
  Z.of_nat n = 2 ^ 32 + 1 ->
  exists rows st,
    counter.line_loop (file_lines (unlines [String "1" (zeros n)])) counter.init
      = (rows, Ok st) /\
    counter.i st = 0 /\
    counter.bound st <> 1000 * 10 ^ (counter.i st - 2).
Proof.
  intros Hn.
  rewrite file_lines_unlines
    by (constructor; [cbn [free_of]; now rewrite free_of_zeros|constructor]).
  pose proof (read_line_power_of_ten n) as E.
  destruct (process_line_record _ counter.init _ [] E ltac:(simpl; lia) valid_init)
    as (k & Hline & Hbelow & Hend).
  cbn [counter.line_loop]. rewrite Hline. eexists _, _. split; [reflexivity|].
  cbn [counter.init counter.bound] in Hbelow, Hend.
  assert (Hk : Z.of_nat k = 2 ^ 32 - 2).
  { change 1000 with (10 ^ 3) in Hbelow, Hend.
    rewrite <- Z.pow_add_r in Hend by lia.
    apply Z.pow_le_mono_r_iff in Hend; [|lia|lia].
    destruct k as [|k]; [lia|].
    specialize (Hbelow k ltac:(lia)).
    rewrite <- Z.pow_add_r in Hbelow by lia.
    apply Z.pow_lt_mono_r_iff in Hbelow; lia. }
  cbn [after_line counter.i counter.bound counter.init].
  assert (Hi : wrap32 (2 + Z.of_nat k) = 0) by (rewrite Hk; reflexivity).
  rewrite Hi. split; [reflexivity|].
  change (1000 * 10 ^ (0 - 2)) with 0.
  assert (0 < 10 ^ Z.of_nat k) by (apply Z.pow_pos_nonneg; lia). lia.
Qed.

(** C6 as it is written fails once [i] has wrapped around.  The file is one
    line, the decimal numeral of [10 ^ (2 ^ 32 + 1)]: the loop scales
    [2 ^ 32 - 2] times and leaves [i] at 0, while [bound] is positive. *)
Lemma counter_magnitude_wraps :
  exists rows st,
    counter.line_loop
      (file_lines (unlines [String "1" (zeros (Z.to_nat (2 ^ 32 + 1)))])) counter.init
      = (rows, Ok st) /\
    counter.i st = 0 /\
    counter.bound st <> 1000 * 10 ^ (counter.i st - 2).
Proof. apply power_of_ten_line. apply Z2Nat.id. lia. Qed.

(** * Further properties *)

(** ** Lines that are not records *)

Lemma not_record_cases (line : string) :
  is_record line = false ->
  (line = EmptyString /\ read_line line = Ok []) \/ read_line line = Throw.
Proof.
  unfold is_record. destruct (read_line line) as [[|p divs]| | |] eqn:E; try discriminate.
  - intros _. left. split; [now apply read_line_nil|reflexivity].
  - intros _. now right.
  - now destruct (read_line_defined line).
  - now destruct (read_line_defined line).
Qed.

Lemma ending_not_record (line : string) :
  is_record line = false ->
  match read_line line with
  | Ok (_ :: _) => False
  | Ok [] => ending (Some line) = Undefined
  | Throw => ending (Some line) = Throw
  | _ => False
  end.
Proof.
  intros H. destruct (not_record_cases line H) as [[_ E]|E]; rewrite E; unfold ending;
    now rewrite E.
Qed.

(** ** [imprimitive.cpp] on any file *)

Lemma imprimitive_line_loop_any (lines : list string) :
  exists r : result unit,
    imprimitive.line_loop lines
      = (List.filter selected (lines_before is_record lines), r) /\
    match r with
    | Ok _ => Ok 0
    | Throw => Throw
    | Undefined => Undefined
    | Diverge => Diverge
    end = ending (first_not is_record lines).
Proof.
  induction lines as [|line lines (r & IH & Hr)]; [exists (Ok tt); split; reflexivity|].
  cbn [lines_before first_not imprimitive.line_loop].
  destruct (is_record line) eqn:Hrec.
  - apply is_record_spec in Hrec as (p & divs & E).
    rewrite (imprimitive_process_line_record line p divs E), IH.
    exists r. split; [|exact Hr]. cbn [List.filter]. now destruct (selected line).
  - pose proof (ending_not_record line Hrec) as Hend.
    unfold imprimitive.process_line.
    destruct (read_line line) as [[|p divs]| | |]; try contradiction.
    + exists Undefined. split; [reflexivity|now rewrite Hend].
    + exists Throw. split; [reflexivity|now rewrite Hend].
Qed.


Lemma filter_before_sublist (f ok : string -> bool) (lines : list string) :
  sublist (List.filter f (lines_before ok lines)) lines.
Proof.
  induction lines as [|line lines IH]; [constructor|].
  cbn [lines_before]. destruct (ok line); [|apply sublist_nil_l].
  cbn [List.filter]. destruct (f line); now constructor.
Qed.

Lemma imprimitive_main_sublist (contents : string) :
  sublist (output (imprimitive.main (Some contents))) (file_lines contents).
Proof.
  unfold imprimitive.main.
  destruct (imprimitive_line_loop_any (file_lines contents)) as (r & -> & _).
  destruct r; apply filter_before_sublist.
Qed.

(** X2.  Whatever the file and however the run ends, [divisors.txt] holds
    lines of the file, in the order of the file and at most as often as the
    file has them: nothing is invented, changed, moved or repeated.  When
    the file cannot be opened nothing is written. *)
Theorem imprimitive_output_sublist (file : option string) :
  sublist (output (imprimitive.main file))
    (match file with Some contents => file_lines contents | None => [] end).
Proof.
  destruct file as [contents|]; [apply imprimitive_main_sublist|constructor].
Qed.

Lemma filter_all (f : string -> bool) (lines : list string) :
  Forall (fun line => f line = true) lines -> List.filter f lines = lines.
Proof.
  induction 1 as [|line lines Hline _ IH]; [reflexivity|].
  cbn [List.filter]. now rewrite Hline, IH.
Qed.

Lemma imprimitive_output_facts (file : option string) :
  Forall (fun line => free_of LF line = true /\ is_record line = true /\ selected line = true)
    (output (imprimitive.main file)).
Proof.
  destruct file as [contents|]; [|constructor].
  apply List.Forall_forall. intros line Hin.
  pose proof (file_lines_free contents) as Hfree.
  pose proof (imprimitive_main_sublist contents) as Hsub.
  assert (Hline : In line (file_lines contents)).
  { apply list_elem_of_In. eapply elem_of_sublist; [|exact Hsub]. now apply list_elem_of_In. }
  split; [rewrite List.Forall_forall in Hfree; now apply Hfree|].
  unfold imprimitive.main in Hin.
  destruct (imprimitive.line_loop (file_lines contents)) as [out r] eqn:E.
  assert (Hout : In line out) by (destruct r; exact Hin).
  destruct (imprimitive_line_loop_sound _ _ _ E line Hout) as (p & divs & Hp & Hmod).
  split; [apply is_record_spec; eauto|].
  unfold selected. rewrite (is_record_principal _ _ _ Hp). now apply Z.eqb_eq.
Qed.

(** X3.  Running [imprimitive.cpp] on the [divisors.txt] of an earlier run
    returns normally and writes the same [divisors.txt] again, whatever the
    first run read and however it ended. *)
Theorem imprimitive_idempotent (file : option string) :
  imprimitive.main (Some (divisors_txt (imprimitive.main file))) =
    Run (output (imprimitive.main file)) [] (Ok 0).
Proof.
  pose proof (imprimitive_output_facts file) as Hfacts.
  unfold divisors_txt. set (out := output (imprimitive.main file)) in *.
  unfold imprimitive.main.
  rewrite file_lines_unlines
    by (eapply List.Forall_impl; [|exact Hfacts]; intros line H; apply H).
  rewrite imprimitive_line_loop_records
    by (eapply List.Forall_impl; [|exact Hfacts]; intros line H; apply H).
  rewrite filter_all
    by (eapply List.Forall_impl; [|exact Hfacts]; intros line H; apply H).
  reflexivity.
Qed.

Lemma imprimitive_line_loop_app (xs ys : list string) :
  imprimitive.line_loop (xs ++ ys) =
    match imprimitive.line_loop xs with
    | (out, Ok _) => let '(out', r) := imprimitive.line_loop ys in (out ++ out', r)
    | (out, r) => (out, r)
    end.
Proof.
  induction xs as [|x xs IH]; [simpl; now destruct (imprimitive.line_loop ys)|].
  cbn [app imprimitive.line_loop].
  destruct (imprimitive.process_line x) as [out| | |]; try reflexivity.
  rewrite IH.
  destruct (imprimitive.line_loop xs) as [out1 [[]| | |]]; try reflexivity.
  destruct (imprimitive.line_loop ys) as [out2 r]. now rewrite app_assoc.
Qed.

(** X4.  [imprimitive.cpp] works line by line: on a file made of the lines
    of two files it writes what it writes on the first, followed, when the
    run on the first returns, by what it writes on the second, and it ends
    as the run on the second ends. *)
Theorem imprimitive_concatenation (xs ys : list string) :
  Forall (fun line => free_of LF line = true) xs ->
  Forall (fun line => free_of LF line = true) ys ->
  imprimitive.main (Some (unlines (xs ++ ys))) =
    match status (imprimitive.main (Some (unlines xs))) with
    | Ok _ =>
        Run (output (imprimitive.main (Some (unlines xs)))
               ++ output (imprimitive.main (Some (unlines ys))))
            [] (status (imprimitive.main (Some (unlines ys))))
    | _ => imprimitive.main (Some (unlines xs))
    end.
Proof.
  intros Hxs Hys. unfold imprimitive.main.
  rewrite !file_lines_unlines by (try apply Forall_app; auto).
  rewrite imprimitive_line_loop_app.
  destruct (imprimitive.line_loop xs) as [out1 [[]| | |]]; try reflexivity.
  cbn [status output].
  destruct (imprimitive.line_loop ys) as [out2 [[]| | |]]; reflexivity.
Qed.

Lemma imprimitive_concatenation_witness :
  imprimitive.main
    (Some (unlines (["5717264681 3 7"; "561 3 11 17"] ++ ["11434529362 2 5717264681"]))) =
    match status (imprimitive.main (Some (unlines ["5717264681 3 7"; "561 3 11 17"]))) with
    | Ok _ =>
        Run (output (imprimitive.main (Some (unlines ["5717264681 3 7"; "561 3 11 17"])))
               ++ output (imprimitive.main (Some (unlines ["11434529362 2 5717264681"]))))
            [] (status (imprimitive.main (Some (unlines ["11434529362 2 5717264681"]))))
    | _ => imprimitive.main (Some (unlines ["5717264681 3 7"; "561 3 11 17"]))
    end.
Proof.
  apply (imprimitive_concatenation
           ["5717264681 3 7"; "561 3 11 17"] ["11434529362 2 5717264681"]);
    repeat constructor.
Defined.

(** ** [counter.cpp] on any file *)



Lemma first_not_None (ok : string -> bool) (lines : list string) :
  first_not ok lines = None <-> Forall (fun line => ok line = true) lines.
Proof.
  induction lines as [|line lines IH]; [easy|].
  cbn [first_not]. destruct (ok line) eqn:E.
  - rewrite IH. split; [now constructor|now inversion 1].
  - split; [discriminate|]. inversion 1; congruence.
Qed.




(** ** How many rows *)

(** The number of threshold rows is the number of times [bound] has to be
    multiplied by ten to reach the greatest principal number. *)
Lemma line_loop_row_count (lines : list string) (st st' : counter.state)
    (rows : list counter.row) :
  Forall (fun line => countable line = true) lines -> valid st ->
  counter.line_loop lines st = (rows, Ok st') ->
  (forall line p, In line lines -> principal line = Some p ->
     p <= counter.bound st * 10 ^ Z.of_nat (length rows)) /\
  (length rows <> O ->
   exists line p, In line lines /\ principal line = Some p /\
     counter.bound st * 10 ^ (Z.of_nat (length rows) - 1) < p).
Proof.
  intros Hall. revert st rows. induction Hall as [|line lines Hline _ IH]; intros st rows Hst.
  - intros [= <- <-]. split; [intros ? ? []|easy].
  - cbn [counter.line_loop].
    apply countable_spec in Hline as (p & divs & E & Hlen).
    destruct (process_line_record line st p divs E Hlen Hst) as (k & -> & Hbelow & Hend).
    destruct (counter.line_loop lines _) as [rows2 r2] eqn:Hloop.
    intros [= <- ->].
    destruct (IH _ _ (valid_after_line _ _ _ Hst) Hloop) as [Hle Hgt].
    cbn [after_line counter.bound] in Hle, Hgt.
    rewrite length_app, length_replicate, Nat2Z.inj_add.
    assert (Hb : 0 < counter.bound st) by apply Hst.
    assert (H10 : forall n : nat, 0 < 10 ^ Z.of_nat n)
      by (intros n; apply Z.pow_pos_nonneg; lia).
    split.
    + intros l q [<-|Hin] Hq.
      * rewrite (is_record_principal _ _ _ E) in Hq. injection Hq as <-.
        rewrite Z.pow_add_r by lia.
        pose proof (H10 k). pose proof (H10 (length rows2)). nia.
      * specialize (Hle l q Hin Hq). rewrite Z.pow_add_r by lia. lia.
    + intros Hn. destruct (Nat.eq_dec (length rows2) O) as [H0|H0].
      * rewrite H0 in *. destruct k as [|k]; [easy|].
        exists line, p. split; [now left|]. split; [now apply is_record_principal in E|].
        specialize (Hbelow k ltac:(lia)).
        replace (Z.of_nat (S k) + Z.of_nat 0 - 1) with (Z.of_nat k) by lia. exact Hbelow.
      * destruct (Hgt H0) as (l & q & Hin & Hq & Hlt).
        exists l, q. split; [now right|]. split; [exact Hq|].
        replace (Z.of_nat k + Z.of_nat (length rows2) - 1)
          with (Z.of_nat k + (Z.of_nat (length rows2) - 1)) by lia.
        rewrite Z.pow_add_r by lia. lia.
Qed.

Lemma counter_row_count_aux (lines : list string) :
  Forall (fun line => countable line = true) lines ->
  exists (rows : list counter.row) (st : counter.state),
    counter.line_loop lines counter.init = (rows, Ok st) /\
    counter.print_row (counter.prime_count st) = snapshot lines /\
    (forall line p, In line lines -> principal line = Some p ->
       p <= 1000 * 10 ^ Z.of_nat (length rows)) /\
    (length rows <> O ->
     exists line p, In line lines /\ principal line = Some p /\
       1000 * 10 ^ (Z.of_nat (length rows) - 1) < p).
Proof.
  intros Hall.
  destruct (line_loop_snapshot lines Hall) as (rows & st & Hloop & _ & _ & _ & _ & _ & Hrow).
  exists rows, st. split; [exact Hloop|]. split; [exact Hrow|].
  apply (line_loop_row_count lines counter.init st rows Hall valid_init Hloop).
Qed.

(** X6.  When every line of the file can be counted, the table has [k + 1]
    rows, where [k] is the least number such that every principal number of
    the file is at most [1000 * 10 ^ k]: the size of the table depends on the
    greatest principal number only. *)
Theorem counter_row_count (contents : string) :
  Forall (fun line => countable line = true) (file_lines contents) ->
  exists k : nat,
    length (output (counter.main (Some contents))) = S k /\
    (forall line p, In line (file_lines contents) -> principal line = Some p ->
       p <= 1000 * 10 ^ Z.of_nat k) /\
    (k <> O ->
     exists line p, In line (file_lines contents) /\ principal line = Some p /\
       1000 * 10 ^ (Z.of_nat k - 1) < p).
Proof.
  intros Hall.
  destruct (counter_row_count_aux _ Hall) as (rows & st & Hloop & _ & Hle & Hgt).
  exists (length rows). split; [|split; assumption].
  unfold counter.main. rewrite Hloop. cbn [output].
  rewrite length_app. simpl. lia.
Qed.

Lemma counter_row_count_witness :
  let contents := unlines ["561 3 11 17"; "41041 7 11 13 41"; "1105 5 13 17"] in
  exists k : nat,
    length (output (counter.main (Some contents))) = S k /\
    (forall line p, In line (file_lines contents) -> principal line = Some p ->
       p <= 1000 * 10 ^ Z.of_nat k) /\
    (k <> O ->
     exists line p, In line (file_lines contents) /\ principal line = Some p /\
       1000 * 10 ^ (Z.of_nat k - 1) < p).
Proof.
  intros contents. apply (counter_row_count contents). repeat constructor.
Defined.

(** ** The order of the lines *)

Lemma tally_Permutation (k : nat) (xs ys : list string) :
  Permutation xs ys -> tally k xs = tally k ys.
Proof. induction 1; cbn [tally]; lia. Qed.

Lemma snapshot_Permutation (xs ys : list string) :
  Permutation xs ys -> snapshot xs = snapshot ys.
Proof.
  intros H. unfold snapshot. apply map_ext. intros j.
  now rewrite (tally_Permutation j xs ys H).
Qed.

(** X7.  When every line of the file can be counted, the number of rows of
    the table and its final row do not depend on the order of the lines:
    any rearrangement of the lines gives a table of the same size with the
    same last row. *)
Theorem counter_order_independent (contents1 contents2 : string) :
  Permutation (file_lines contents1) (file_lines contents2) ->
  Forall (fun line => countable line = true) (file_lines contents1) ->
  length (output (counter.main (Some contents1)))
    = length (output (counter.main (Some contents2))) /\
  last (output (counter.main (Some contents1)))
    = last (output (counter.main (Some contents2))) /\
  last (output (counter.main (Some contents1))) = Some (snapshot (file_lines contents1)).
Proof.
  intros Hperm Hall1.
  assert (Hall2 : Forall (fun line => countable line = true) (file_lines contents2))
    by (eapply Permutation_Forall; eassumption).
  destruct (counter_row_count_aux _ Hall1) as (rows1 & st1 & Hloop1 & Hrow1 & Hle1 & Hgt1).
  destruct (counter_row_count_aux _ Hall2) as (rows2 & st2 & Hloop2 & Hrow2 & Hle2 & Hgt2).
  unfold counter.main. rewrite Hloop1, Hloop2. cbn [output].
  rewrite !length_app, !last_snoc, Hrow1, Hrow2.
  rewrite (snapshot_Permutation _ _ Hperm).
  split; [|split; reflexivity]. cbn [length].
  enough (length rows1 = length rows2) by lia.
  assert (Hlt : forall (n m : nat) (p : Z),
             1000 * 10 ^ (Z.of_nat n - 1) < p -> p <= 1000 * 10 ^ Z.of_nat m ->
             n <> O -> (n <= m)%nat).
  { intros n m p H1 H2 Hn.
    assert (H : 10 ^ (Z.of_nat n - 1) < 10 ^ Z.of_nat m).
    { set (a := 10 ^ (Z.of_nat n - 1)) in *. set (b := 10 ^ Z.of_nat m) in *.
      clearbody a b. lia. }
    apply Z.pow_lt_mono_r_iff in H. all: lia. }
  destruct (Nat.eq_dec (length rows1) O) as [H1|H1];
    destruct (Nat.eq_dec (length rows2) O) as [H2|H2]; [lia| | |].
  - destruct (Hgt2 H2) as (l & q & Hin & Hq & Hlow).
    apply (Permutation_in _ (Permutation_sym Hperm)) in Hin.
    specialize (Hlt _ _ _ Hlow (Hle1 l q Hin Hq) H2). lia.
  - destruct (Hgt1 H1) as (l & q & Hin & Hq & Hlow).
    apply (Permutation_in _ Hperm) in Hin.
    specialize (Hlt _ _ _ Hlow (Hle2 l q Hin Hq) H1). lia.
  - destruct (Hgt2 H2) as (l & q & Hin & Hq & Hlow).
    apply (Permutation_in _ (Permutation_sym Hperm)) in Hin.
    pose proof (Hlt _ _ _ Hlow (Hle1 l q Hin Hq) H2).
    destruct (Hgt1 H1) as (l' & q' & Hin' & Hq' & Hlow').
    apply (Permutation_in _ Hperm) in Hin'.
    pose proof (Hlt _ _ _ Hlow' (Hle2 l' q' Hin' Hq') H1). lia.
Qed.

Lemma counter_order_independent_witness :
  let contents1 := unlines ["561 3 11 17"; "41041 7 11 13 41"; "1105 5 13 17"] in
  let contents2 := unlines ["41041 7 11 13 41"; "561 3 11 17"; "1105 5 13 17"] in
  length (output (counter.main (Some contents1)))
    = length (output (counter.main (Some contents2))) /\
  last (output (counter.main (Some contents1)))
    = last (output (counter.main (Some contents2))) /\
  last (output (counter.main (Some contents1))) = Some (snapshot (file_lines contents1)).
Proof.
  intros contents1 contents2. apply (counter_order_independent contents1 contents2).
  - vm_compute. apply perm_swap.
  - repeat constructor.
Defined.

(** ** Files in ascending order *)

Lemma ascending_from_spec (lo : Z) (lines : list string) :
  ascending_from lo lines = true ->
  forall line, In line lines -> exists q, principal line = Some q /\ lo <= q.
Proof.
  revert lo. induction lines as [|l lines IH]; intros lo H line Hin; [destruct Hin|].
  cbn [ascending_from] in H. destruct (principal l) as [p|] eqn:Hp; [|discriminate].
  apply andb_prop in H as [Hlo Hasc]. apply Z.leb_le in Hlo.
  destruct Hin as [<-|Hin]; [eauto|].
  destruct (IH p Hasc line Hin) as (q & Hq & Hle). exists q. split; [exact Hq|lia].
Qed.

Lemma upto_all (b : Z) (lines : list string) :
  (forall line, In line lines -> exists q, principal line = Some q /\ q <= b) ->
  upto b lines = lines.
Proof.
  intros H. unfold upto. apply filter_all. apply List.Forall_forall. intros line Hin.
  destruct (H line Hin) as (q & -> & Hq). now apply Z.leb_le.
Qed.

Lemma upto_none (b : Z) (lines : list string) :
  (forall line, In line lines -> exists q, principal line = Some q /\ b < q) ->
  upto b lines = [].
Proof.
  induction lines as [|l lines IH]; intros H; [reflexivity|].
  unfold upto in *. cbn [List.filter].
  destruct (H l (or_introl eq_refl)) as (q & -> & Hq).
  destruct (Z.leb_spec q b); [lia|]. apply IH. intros line Hin. apply H. now right.
Qed.

(** On a file in ascending order, a row printed while [bound] is scaled
    for the [j]-th time from the current state shows the tallies of the
    lines up to [bound * 10 ^ j]. *)
Lemma ascending_rows (rest pre : list string) (st st' : counter.state)
    (rows : list counter.row) (lo : Z) :
  Forall (fun line => countable line = true) rest ->
  ascending_from lo rest = true ->
  valid st ->
  (forall j : nat, (j < 20)%nat -> counter.prime_count st !!! j = wrap32 (tally j pre)) ->
  (forall line, In line pre -> exists q, principal line = Some q /\ q <= counter.bound st) ->
  counter.line_loop rest st = (rows, Ok st') ->
  forall (j : nat) (row : counter.row),
    rows !! j = Some row ->
    row = snapshot (upto (counter.bound st * 10 ^ Z.of_nat j) (pre ++ rest)).
Proof.
  intros Hall. revert pre st rows lo.
  induction Hall as [|line rest Hline _ IH]; intros pre st rows lo Hasc Hst Hpc Hpre.
  - intros [= <- <-] j row Hj. discriminate.
  - cbn [counter.line_loop].
    apply countable_spec in Hline as (p & divs & E & Hlen).
    destruct (process_line_record line st p divs E Hlen Hst) as (k & -> & Hbelow & Hend).
    destruct (counter.line_loop rest _) as [rows2 r2] eqn:Hloop.
    intros [= <- ->] j row Hj.
    cbn [ascending_from] in Hasc. rewrite (is_record_principal _ _ _ E) in Hasc.
    apply andb_prop in Hasc as [_ Hasc].
    assert (Hb : 0 < counter.bound st) by apply Hst.
    assert (H10 : forall n : nat, 1 <= 10 ^ Z.of_nat n).
    { intros n. pose proof (Z.pow_pos_nonneg 10 (Z.of_nat n)). lia. }
    destruct (Nat.lt_ge_cases j k) as [Hjk|Hjk].
    + rewrite lookup_app_l in Hj by now rewrite length_replicate.
      apply lookup_replicate in Hj as [-> _].
      unfold upto. rewrite List.filter_app. fold (upto (counter.bound st * 10 ^ Z.of_nat j) pre).
      fold (upto (counter.bound st * 10 ^ Z.of_nat j) (line :: rest)).
      rewrite upto_all, upto_none, app_nil_r.
      * rewrite print_row_seq. unfold snapshot. apply map_ext_in.
        intros i Hi. apply in_seq in Hi. apply Hpc. lia.
      * intros l [<-|Hin].
        -- exists p. split; [now apply is_record_principal in E|]. now apply Hbelow.
        -- destruct (ascending_from_spec p rest Hasc l Hin) as (q & Hq & Hle).
           exists q. split; [exact Hq|]. specialize (Hbelow j Hjk). lia.
      * intros l Hin. destruct (Hpre l Hin) as (q & Hq & Hle).
        exists q. split; [exact Hq|]. specialize (H10 j). nia.
    + rewrite lookup_app_r in Hj by now rewrite length_replicate.
      rewrite length_replicate in Hj.
      pose proof (valid_after_line k (S (length divs)) st Hst) as Hst1.
      specialize (IH (pre ++ [line]) _ rows2 p Hasc Hst1).
      rewrite (IH) with (j := (j - k)%nat) (row := row); [| | |exact Hloop|exact Hj].
      * cbn [after_line counter.bound]. rewrite <- app_assoc. cbn [app].
        rewrite <- Z.mul_assoc, <- Z.pow_add_r by lia.
        replace (Z.of_nat k + Z.of_nat (j - k)) with (Z.of_nat j) by lia. reflexivity.
      * intros i Hi. cbn [after_line counter.prime_count].
        destruct Hst as (_ & _ & _ & Hlen20 & Hrange).
        rewrite alter_count_lookup by (assumption || lia).
        rewrite Hpc by exact Hi. rewrite tally_app. cbn [tally].
        apply read_line_length in E. rewrite <- E. cbn [length].
        unfold wrap32. rewrite Z.add_mod_idemp_l by lia. f_equal. lia.
      * intros l Hin. cbn [after_line counter.bound].
        apply in_app_or in Hin as [Hin|[<-|[]]].
        -- destruct (Hpre l Hin) as (q & Hq & Hle).
           exists q. split; [exact Hq|]. specialize (H10 k). nia.
        -- exists p. split; [now apply is_record_principal in E|exact Hend].
Qed.

(** X8.  When every line of the file can be counted and the principal
    numbers do not go down from one line to the next, the table means what
    it is meant to: its [j]-th row (from 0) shows, for 4 to 15 tokens, how
    many lines have a principal number of at most [1000 * 10 ^ j], and the
    final row shows the tallies of the whole file. *)
Theorem counter_ascending_rows (contents : string) :
  Forall (fun line => countable line = true) (file_lines contents) ->
  ascending (file_lines contents) = true ->
  exists rows : list counter.row,
    output (counter.main (Some contents)) = rows ++ [snapshot (file_lines contents)] /\
    forall (j : nat) (row : counter.row),
      rows !! j = Some row ->
      row = snapshot (upto (1000 * 10 ^ Z.of_nat j) (file_lines contents)).
Proof.
  intros Hall Hasc.
  destruct (line_loop_snapshot _ Hall) as (rows & st & Hloop & _ & _ & _ & _ & _ & Hrow).
  exists rows. split; [unfold counter.main; now rewrite Hloop, Hrow|].
  assert (Hfrom : exists lo, ascending_from lo (file_lines contents) = true).
  { unfold ascending in Hasc. destruct (file_lines contents) as [|l ls]; [now exists 0|].
    destruct (principal l) as [p|]; [now exists p|discriminate]. }
  destruct Hfrom as [lo Hfrom].
  intros j row Hj.
  apply (ascending_rows (file_lines contents) [] counter.init st rows lo Hall Hfrom valid_init)
    with (j := j) (row := row); try assumption.
  - intros i Hi. now rewrite init_lookup.
  - intros l [].
Qed.

Lemma counter_ascending_rows_witness :
  let contents :=
    unlines ["561 3 11 17"; "1105 5 13 17"; "41041 7 11 13 41"; "825265 5 7 17 19 73"] in
  exists rows : list counter.row,
    output (counter.main (Some contents)) = rows ++ [snapshot (file_lines contents)] /\
    forall (j : nat) (row : counter.row),
      rows !! j = Some row ->
      row = snapshot (upto (1000 * 10 ^ Z.of_nat j) (file_lines contents)).
Proof.
  intros contents. apply (counter_ascending_rows contents).
  - repeat constructor.
  - vm_compute. reflexivity.
Defined.

(** ** Longer files *)

Lemma threshold_rows_main (contents : string) :
  threshold_rows (counter.main (Some contents))
    = fst (counter.line_loop (file_lines contents) counter.init).
Proof.
  unfold threshold_rows, counter.main.
  destruct (counter.line_loop (file_lines contents) counter.init) as [rows [st| | |]];
    try reflexivity.
  cbn [status output fst]. apply removelast_last.
Qed.

(** X9.  Rows that [counter.cpp] has printed for the lines read so far are
    not affected by the lines that follow: the threshold rows of a file are
    the first threshold rows of every file that starts with the same
    lines. *)
Theorem counter_rows_prefix (xs ys : list string) :
  Forall (fun line => free_of LF line = true) xs ->
  Forall (fun line => free_of LF line = true) ys ->
  threshold_rows (counter.main (Some (unlines xs)))
    `prefix_of` threshold_rows (counter.main (Some (unlines (xs ++ ys)))).
Proof.
  intros Hxs Hys. rewrite !threshold_rows_main.
  rewrite !file_lines_unlines by (try apply Forall_app; auto).
  rewrite line_loop_app.
  destruct (counter.line_loop xs counter.init) as [rows [st| | |]];
    try (exists []; now rewrite app_nil_r).
  destruct (counter.line_loop ys st) as [rows' r]. now exists rows'.
Qed.

Lemma counter_rows_prefix_witness :
  threshold_rows (counter.main (Some (unlines ["561 3 11 17"; "41041 7 11 13 41"])))
    `prefix_of`
  threshold_rows
    (counter.main (Some (unlines (["561 3 11 17"; "41041 7 11 13 41"]
                                    ++ ["825265 5 7 17 19 73"])))).
Proof.
  apply (counter_rows_prefix ["561 3 11 17"; "41041 7 11 13 41"] ["825265 5 7 17 19 73"]);
    repeat constructor.
Defined.

(** ** Decimal numerals *)

Lemma digits_cons_digit (c : ascii) (k acc : Z) (s : string) :
  isspace c = false -> digit_value c = Some k ->
  digits acc (String c s) = digits (acc * 10 + k) s.
Proof. intros Hs Hd. cbn [digits]. now rewrite Hs, Hd. Qed.

Ltac uint_digit k := rewrite (digits_cons_digit _ k) by reflexivity.

Lemma digits_uint_acc (d : Decimal.uint) (acc : positive) :
  digits (Z.pos acc) (DecimalString.NilEmpty.string_of_uint d)
    = Some (Z.pos (Pos.of_uint_acc d acc)).
Proof.
  revert acc.
  induction d as [|d IH|d IH|d IH|d IH|d IH|d IH|d IH|d IH|d IH|d IH]; intros acc;
    cbn [DecimalString.NilEmpty.string_of_uint Pos.of_uint_acc]; [reflexivity|..].
  - uint_digit 0. rewrite <- IH. f_equal. lia.
  - uint_digit 1. rewrite <- IH. f_equal. lia.
  - uint_digit 2. rewrite <- IH. f_equal. lia.
  - uint_digit 3. rewrite <- IH. f_equal. lia.
  - uint_digit 4. rewrite <- IH. f_equal. lia.
  - uint_digit 5. rewrite <- IH. f_equal. lia.
  - uint_digit 6. rewrite <- IH. f_equal. lia.
  - uint_digit 7. rewrite <- IH. f_equal. lia.
  - uint_digit 8. rewrite <- IH. f_equal. lia.
  - uint_digit 9. rewrite <- IH. f_equal. lia.
Qed.

Lemma digits_uint (d : Decimal.uint) :
  digits 0 (DecimalString.NilEmpty.string_of_uint d) = Some (Z.of_N (N.of_uint d)).
Proof.
  unfold N.of_uint.
  induction d as [|d IH|d IH|d IH|d IH|d IH|d IH|d IH|d IH|d IH|d IH];
    cbn [DecimalString.NilEmpty.string_of_uint Pos.of_uint]; [reflexivity|..].
  - uint_digit 0. exact IH.
  - uint_digit 1. apply (digits_uint_acc d 1).
  - uint_digit 2. apply (digits_uint_acc d 2).
  - uint_digit 3. apply (digits_uint_acc d 3).
  - uint_digit 4. apply (digits_uint_acc d 4).
  - uint_digit 5. apply (digits_uint_acc d 5).
  - uint_digit 6. apply (digits_uint_acc d 6).
  - uint_digit 7. apply (digits_uint_acc d 7).
  - uint_digit 8. apply (digits_uint_acc d 8).
  - uint_digit 9. apply (digits_uint_acc d 9).
Qed.

(** A numeral holds digits only: none of its characters is [delim] when
    [delim] is no digit. *)
Lemma uint_free (delim : ascii) (d : Decimal.uint) :
  digit_value delim = None ->
  free_of delim (DecimalString.NilEmpty.string_of_uint d) = true.
Proof.
  intros Hd.
  induction d as [|d IH|d IH|d IH|d IH|d IH|d IH|d IH|d IH|d IH|d IH];
    cbn [DecimalString.NilEmpty.string_of_uint free_of]; [reflexivity|..];
    rewrite IH, andb_true_r; apply negb_true_iff;
    (match goal with |- Ascii.eqb ?c delim = false =>
       destruct (Ascii.eqb_spec c delim) as [<-|]; [discriminate Hd|reflexivity] end).
Qed.

Lemma free_of_c_str (s : string) : free_of Ascii.zero s = true -> c_str s = s.
Proof.
  induction s as [|c s IH]; [reflexivity|]. cbn [free_of c_str].
  intros [Hc Hs]%andb_prop. apply negb_true_iff in Hc. rewrite Hc. now rewrite IH.
Qed.

Lemma mpz_class_uint (d : Decimal.uint) :
  d <> Decimal.Nil ->
  mpz_class (DecimalString.NilEmpty.string_of_uint d) = Some (Z.of_N (N.of_uint d)).
Proof.
  intros Hd. unfold mpz_class.
  rewrite free_of_c_str by now apply uint_free.
  pose proof (digits_uint d) as Hdigits.
  unfold mpz_set_str.
  destruct d; [contradiction|..];
    cbn [DecimalString.NilEmpty.string_of_uint] in *;
    cbn [skip_space];
    match goal with |- context [isspace ?c] => change (isspace c) with false end;
    cbv iota beta;
    match goal with |- context [digit_value ?c] =>
      let v := eval vm_compute in (digit_value c) in change (digit_value c) with v end;
    cbv iota beta; now rewrite Hdigits.
Qed.

Lemma decimal_uint (n : Z) :
  0 <= n ->
  exists d : Decimal.uint,
    d <> Decimal.Nil /\
    decimal n = DecimalString.NilEmpty.string_of_uint d /\
    Z.of_N (N.of_uint d) = n.
Proof.
  intros Hn. exists (N.to_uint (Z.to_N n)).
  assert (Hnil : N.to_uint (Z.to_N n) <> Decimal.Nil).
  { destruct (Z.to_N n); [discriminate|apply DecimalPos.Unsigned.to_uint_nonnil]. }
  split; [exact Hnil|]. split.
  - unfold decimal, DecimalString.NilZero.string_of_uint.
    now destruct (N.to_uint (Z.to_N n)).
  - rewrite DecimalN.Unsigned.of_to. now apply Z2N.id.
Qed.

(** [mpz_class] reads a decimal numeral as the number it denotes. *)
Lemma mpz_class_decimal (n : Z) : 0 <= n -> mpz_class (decimal n) = Some n.
Proof.
  intros Hn. destruct (decimal_uint n Hn) as (d & Hd & -> & <-).
  now apply mpz_class_uint.
Qed.

Lemma decimal_free (delim : ascii) (n : Z) :
  0 <= n -> digit_value delim = None -> free_of delim (decimal n) = true.
Proof.
  intros Hn Hd. destruct (decimal_uint n Hn) as (d & _ & -> & _). now apply uint_free.
Qed.

Lemma decimal_nonempty (n : Z) : 0 <= n -> decimal n <> EmptyString.
Proof.
  intros Hn. destruct (decimal_uint n Hn) as (d & Hd & -> & _).
  now destruct d.
Qed.

Lemma decimal_inj (n m : Z) : 0 <= n -> 0 <= m -> decimal n = decimal m -> n = m.
Proof.
  intros Hn Hm H. apply (f_equal mpz_class) in H.
  rewrite !mpz_class_decimal in H by assumption. now injection H.
Qed.

(** ** Tokens and lines *)

Lemma join_cons_char (c : ascii) (tok : string) (toks : list string) :
  join (String c tok :: toks) = String c (join (tok :: toks)).
Proof. now destruct toks. Qed.

(** X10.  The token loop splits a line at every space and loses nothing
    else: writing the tokens of a line with single spaces between them gives
    the line back, except for one space at the end of the line, which the
    loop drops. *)
Theorem tokens_join (line : string) :
  join (tokens line) = line \/ (join (tokens line) ++ " ")%string = line.
Proof.
  unfold tokens. induction line as [|c line IH]; [now left|].
  rewrite getline_all_cons. destruct (Ascii.eqb_spec c " ") as [->|Hc].
  - destruct (getline_all " " line) as [|tok toks] eqn:E.
    + apply getline_all_empty_iff in E as ->. now right.
    + change (join (EmptyString :: tok :: toks))
        with (String " " (join (tok :: toks))).
      destruct IH as [->|<-]; [now left|now right].
  - destruct (getline_all " " line) as [|tok toks] eqn:E.
    + apply getline_all_empty_iff in E as ->. now left.
    + rewrite join_cons_char. destruct IH as [->|<-]; [now left|now right].
Qed.

(** Tokens without spaces, none of them empty, are read back as they
    were written. *)
Lemma tokens_of_join (toks : list string) :
  Forall (fun tok => free_of " " tok = true /\ tok <> EmptyString) toks ->
  tokens (join toks) = toks.
Proof.
  unfold tokens. induction 1 as [|tok toks [Hfree Hne] Htoks IH]; [reflexivity|].
  destruct toks as [|tok' toks].
  - cbn [join]. destruct tok as [|c tok]; [contradiction|]. now apply getline_all_free.
  - change (join (tok :: tok' :: toks)) with (tok ++ String " " (join (tok' :: toks)))%string.
    rewrite getline_all_app by exact Hfree. now rewrite IH.
Qed.

(** X11.  A line that lists one or more natural numbers as decimal
    numerals with single spaces between them is read by the token loop as
    exactly those numbers, in order: the first is the principal number and
    the others are the divisors. *)
Theorem read_line_decimal (ns : list Z) :
  ns <> [] -> Forall (fun n => 0 <= n) ns ->
  read_line (join (map decimal ns)) = Ok ns /\
  is_record (join (map decimal ns)) = true /\
  principal (join (map decimal ns)) = head ns.
Proof.
  intros Hne Hpos.
  assert (Hread : read_line (join (map decimal ns)) = Ok ns).
  { apply read_line_Ok. rewrite tokens_of_join.
    - clear Hne. induction Hpos as [|n ns Hn _ IH]; cbn [map]; constructor;
        [now apply mpz_class_decimal|exact IH].
    - apply List.Forall_map. eapply List.Forall_impl; [|exact Hpos].
      intros n Hn. split; [now apply decimal_free|now apply decimal_nonempty]. }
  split; [exact Hread|]. destruct ns as [|n ns]; [contradiction|].
  split; [apply is_record_spec; eauto|]. now apply is_record_principal in Hread.
Qed.

Lemma read_line_decimal_witness :
  read_line (join (map decimal [561; 3; 11; 17])) = Ok [561; 3; 11; 17] /\
  is_record (join (map decimal [561; 3; 11; 17])) = true /\
  principal (join (map decimal [561; 3; 11; 17])) = head [561; 3; 11; 17].
Proof.
  apply (read_line_decimal [561; 3; 11; 17]).
  - discriminate.
  - repeat constructor; lia.
Defined.

(** ** The printed table *)

Lemma string_app_assoc (a b c : string) : ((a ++ b) ++ c = a ++ (b ++ c))%string.
Proof. induction a as [|x a IH]; [reflexivity|]. cbn [append]. now rewrite IH. Qed.

Lemma free_of_app (delim : ascii) (a b : string) :
  free_of delim (a ++ b)%string = free_of delim a && free_of delim b.
Proof.
  induction a as [|x a IH]; [reflexivity|]. cbn [append free_of].
  now rewrite IH, andb_assoc.
Qed.

(** The text of a row, computed from the twelve numbers, is the text that
    the two print statements of the source produce from the array. *)
Lemma format_print_row (pc : list Z) :
  format_row (counter.print_row pc) = print_row_text pc.
Proof.
  unfold print_row_text, counter.print_row.
  cbn [seq map app format_row String.concat].
  rewrite !string_app_assoc. reflexivity.
Qed.

Lemma format_row_cons (c : Z) (r : counter.row) :
  format_row (c :: r) =
    (" $" ++ decimal c ++
     String "$" match r with
                | [] => " \\  \hline "
                | _ => " & " ++ format_row r
                end)%string.
Proof.
  destruct r as [|c' r]; cbn [format_row]; now rewrite ?string_app_assoc.
Qed.

(** Two texts that agree up to and including their first [$] agree before
    it and after it. *)
Lemma split_at (delim : ascii) (a b x y : string) :
  free_of delim a = true -> free_of delim b = true ->
  (a ++ String delim x)%string = (b ++ String delim y)%string ->
  a = b /\ x = y.
Proof.
  revert b. induction a as [|c a IH]; intros [|c' b] Ha Hb; cbn [append free_of] in *.
  - now intros [= ->].
  - intros [= <- _]. now rewrite Ascii.eqb_refl in Hb.
  - intros [= -> _]. now rewrite Ascii.eqb_refl in Ha.
  - intros [= <- H]. apply andb_prop in Ha as [_ Ha]. apply andb_prop in Hb as [_ Hb].
    destruct (IH b Ha Hb H) as [-> ->]. now split.
Qed.

Lemma format_row_inj (r1 r2 : counter.row) :
  length r1 = length r2 ->
  Forall (fun c => 0 <= c) r1 -> Forall (fun c => 0 <= c) r2 ->
  format_row r1 = format_row r2 -> r1 = r2.
Proof.
  intros Hlen H1. revert r2 Hlen.
  induction H1 as [|c1 r1 Hc1 H1 IH]; intros [|c2 r2] Hlen H2; try discriminate; [reflexivity|].
  apply Forall_cons_1 in H2 as [Hc2 H2].
  rewrite !format_row_cons. cbn [append]. intros [= H].
  apply split_at in H as [Hc H]; try (apply decimal_free; [assumption|reflexivity]).
  apply decimal_inj in Hc as ->; try assumption.
  f_equal. injection Hlen as Hlen.
  destruct r1 as [|c1' r1], r2 as [|c2' r2]; try discriminate; [reflexivity|].
  apply IH; [exact Hlen|exact H2|]. cbn [append] in H. now injection H.
Qed.

Lemma format_row_free (r : counter.row) :
  Forall (fun c => 0 <= c) r -> free_of LF (format_row r) = true.
Proof.
  induction 1 as [|c r Hc Hr IH]; [reflexivity|].
  rewrite format_row_cons, !free_of_app, decimal_free by (assumption || reflexivity).
  destruct r as [|c' r]; [reflexivity|].
  cbn [free_of]. rewrite free_of_app, IH. reflexivity.
Qed.

(** Every row that is printed has twelve numbers, none of them negative. *)
Lemma print_row_shape (st : counter.state) :
  valid st ->
  length (counter.print_row (counter.prime_count st)) = 12%nat /\
  Forall (fun c => 0 <= c) (counter.print_row (counter.prime_count st)).
Proof.
  intros (_ & _ & _ & Hlen & Hrange). split; [reflexivity|].
  rewrite print_row_seq. apply List.Forall_map, List.Forall_forall.
  intros j Hj. apply in_seq in Hj.
  assert (H : 0 <= counter.prime_count st !!! j < 2 ^ 32)
    by (apply Forall_lookup_total_1; [exact Hrange|lia]).
  lia.
Qed.

Lemma line_loop_shape (lines : list string) (st : counter.state)
    (rows : list counter.row) (r : result counter.state) :
  valid st -> counter.line_loop lines st = (rows, r) ->
  Forall (fun row => length row = 12%nat /\ Forall (fun c => 0 <= c) row) rows /\
  (forall st', r = Ok st' -> valid st').
Proof.
  revert st rows r. induction lines as [|line lines IH]; intros st rows r Hst.
  - intros [= <- <-]. split; [constructor|now intros ? [= <-]].
  - cbn [counter.line_loop].
    destruct (counter.process_line line st) as [[rows1 st1]| | |] eqn:Hline;
      try (intros [= <- <-]; split; [constructor|discriminate]).
    destruct (counter.line_loop lines st1) as [rows2 r2] eqn:Hloop.
    intros [= <- <-].
    destruct (process_line_Ok_inv _ _ _ _ Hline Hst) as (p & divs & k & _ & _ & _ & -> & ->).
    destruct (IH _ _ _ (valid_after_line _ _ _ Hst) Hloop) as [Hrows Hend].
    split; [|exact Hend]. apply Forall_app. split; [|exact Hrows].
    apply Forall_replicate. now apply print_row_shape.
Qed.

Lemma counter_output_shape (file : option string) :
  Forall (fun row => length row = 12%nat /\ Forall (fun c => 0 <= c) row)
    (output (counter.main file)).
Proof.
  destruct file as [contents|]; [|constructor]. unfold counter.main.
  destruct (counter.line_loop (file_lines contents) counter.init) as [rows r] eqn:Hloop.
  destruct (line_loop_shape _ _ _ _ valid_init Hloop) as [Hrows Hend].
  destruct r as [st| | |]; cbn [output]; try exact Hrows.
  apply Forall_app. split; [exact Hrows|]. constructor; [|constructor].
  apply print_row_shape. now apply Hend.
Qed.

(** X12.  The text that [counter.cpp] prints has one line for each row,
    and every line shows the twelve numbers of its row without ambiguity:
    two runs that print the same text have printed the same rows. *)
Theorem counter_text_determines_rows (file1 file2 : option string) :
  file_lines (stdout_text (counter.main file1))
    = map format_row (output (counter.main file1)) /\
  (stdout_text (counter.main file1) = stdout_text (counter.main file2) ->
   output (counter.main file1) = output (counter.main file2)).
Proof.
  assert (Hlines : forall file,
            file_lines (stdout_text (counter.main file))
              = map format_row (output (counter.main file))).
  { intros file. unfold stdout_text. apply file_lines_unlines.
    apply List.Forall_map. eapply List.Forall_impl; [|apply counter_output_shape].
    intros row [_ Hrow]. now apply format_row_free. }
  split; [apply Hlines|].
  intros Htext. apply (f_equal file_lines) in Htext. rewrite !Hlines in Htext.
  pose proof (counter_output_shape file1) as H1.
  pose proof (counter_output_shape file2) as H2.
  revert Htext H1 H2.
  generalize (output (counter.main file1)) (output (counter.main file2)).
  intros rows1. induction rows1 as [|r1 rows1 IH]; intros [|r2 rows2]; try discriminate;
    [reflexivity|].
  cbn [map]. intros [= Hr Hrest] [[Hl1 Hp1] H1]%Forall_cons_1 [[Hl2 Hp2] H2]%Forall_cons_1.
  f_equal; [|now apply IH].
  apply format_row_inj; try assumption. now rewrite Hl1, Hl2.
Qed.

(** ** The threshold loop ends *)

Lemma threshold_loop_more_fuel (fuel fuel' : nat) (p : Z) (st : counter.state)
    (r : list counter.row * counter.state) :
  counter.threshold_loop fuel p st = Some r -> (fuel <= fuel')%nat ->
  counter.threshold_loop fuel' p st = Some r.
Proof.
  revert fuel' st r. induction fuel as [|fuel IH]; intros fuel' st r.
  - cbn [counter.threshold_loop]. destruct (counter.bound st <? p) eqn:E; [discriminate|].
    intros [= <-] _. destruct fuel'; cbn [counter.threshold_loop]; now rewrite E.
  - cbn [counter.threshold_loop]. destruct (counter.bound st <? p) eqn:E.
    + destruct (counter.threshold_loop fuel p (counter.scale st)) as [[rows st']|] eqn:H;
        [|discriminate].
      intros [= <-] Hle. destruct fuel' as [|fuel']; [lia|].
      cbn [counter.threshold_loop]. rewrite E.
      now rewrite (IH fuel' _ _ H) by lia.
    + intros [= <-] _. destruct fuel'; cbn [counter.threshold_loop]; now rewrite E.
Qed.

(** X13.  The threshold loop always ends.  Whatever the principal number,
    in a state where [bound] is positive it stops after finitely many
    rounds with [bound] at or above the principal number, and more fuel than
    [threshold_fuel] gives the same rows and the same state.  [bound] starts
    at 1000 and is only ever multiplied by ten, so no run of [counter.cpp]
    goes on forever. *)
Theorem counter_threshold_loop_ends :
  (forall (p : Z) (st : counter.state),
     0 < counter.bound st ->
     exists rows st',
       counter.threshold_loop (counter.threshold_fuel p) p st = Some (rows, st') /\
       p <= counter.bound st' /\
       forall fuel : nat, (counter.threshold_fuel p <= fuel)%nat ->
         counter.threshold_loop fuel p st = Some (rows, st')) /\
  (forall file : option string, status (counter.main file) <> Diverge).
Proof.
  split.
  - intros p st Hb.
    destruct (threshold_loop_total p st Hb) as [[rows st'] Hloop].
    exists rows, st'. split; [exact Hloop|]. split.
    + apply threshold_loop_spec in Hloop as (k & _ & -> & _ & Hend).
      rewrite scale_iter. exact Hend.
    + intros fuel Hfuel. now apply (threshold_loop_more_fuel _ _ _ _ _ Hloop).
  - intros [contents|]; [|discriminate]. unfold counter.main.
    pose proof (line_loop_terminates (file_lines contents) counter.init valid_init) as H.
    destruct (counter.line_loop (file_lines contents) counter.init) as [rows [st| | |]];
      try discriminate. now cbn in H.
Qed.

Lemma counter_threshold_loop_ends_witness :
  exists rows st',
    counter.threshold_loop (counter.threshold_fuel 41041) 41041 counter.init
      = Some (rows, st') /\
    41041 <= counter.bound st' /\
    forall fuel : nat, (counter.threshold_fuel 41041 <= fuel)%nat ->
      counter.threshold_loop fuel 41041 counter.init = Some (rows, st').
Proof.
  apply (proj1 counter_threshold_loop_ends 41041 counter.init). reflexivity.
Defined.

(** ** Lines copied as they are *)

Lemma unlines_cons_char (c : ascii) (line : string) (lines : list string) :
  unlines (String c line :: lines) = String c (unlines (line :: lines)).
Proof. reflexivity. Qed.

(** Reading a file line by line and writing the lines back gives the file,
    with a line feed added at the end when the file does not end in one. *)
Lemma unlines_file_lines (contents : string) :
  unlines (file_lines contents) = contents \/
  unlines (file_lines contents) = (contents ++ String LF EmptyString)%string.
Proof.
  unfold file_lines. induction contents as [|c contents IH]; [now left|].
  rewrite getline_all_cons. destruct (Ascii.eqb_spec c LF) as [->|Hc].
  - change (unlines (EmptyString :: getline_all LF contents))
      with (String LF (unlines (getline_all LF contents))).
    destruct IH as [-> | ->]; [now left|now right].
  - destruct (getline_all LF contents) as [|line lines] eqn:E.
    + apply getline_all_empty_iff in E as ->. now right.
    + rewrite unlines_cons_char. destruct IH as [-> | ->]; [now left|now right].
Qed.

(** X14.  When every line of the file is a record whose principal number
    is a multiple of 5717264681, [divisors.txt] is a copy of the file, byte
    for byte, with a line feed added at the end when the file does not end
    in one. *)
Theorem imprimitive_copies_file (contents : string) :
  Forall (fun line => is_record line = true /\ selected line = true)
    (file_lines contents) ->
  divisors_txt (imprimitive.main (Some contents)) = contents \/
  divisors_txt (imprimitive.main (Some contents))
    = (contents ++ String LF EmptyString)%string.
Proof.
  intros Hall. unfold divisors_txt, imprimitive.main.
  rewrite imprimitive_line_loop_records
    by (eapply List.Forall_impl; [|exact Hall]; intros line H; apply H).
  rewrite filter_all
    by (eapply List.Forall_impl; [|exact Hall]; intros line H; apply H).
  apply unlines_file_lines.
Qed.

Lemma imprimitive_copies_file_witness :
  let contents := unlines ["5717264681 3 7"; "11434529362 2 5717264681"] in
  divisors_txt (imprimitive.main (Some contents)) = contents \/
  divisors_txt (imprimitive.main (Some contents))
    = (contents ++ String LF EmptyString)%string.
Proof.
  intros contents. apply (imprimitive_copies_file contents).
  repeat constructor.
Defined.
